(** * reppy: function extraction and documentation detection

    A shallow embedding of reppy's parser module (the file that defines
    [parseAndDocument]): the language registry, the documentation classifier, the tree-sitter
    match collector, the ESLint-AST walker with its upward comment scan,
    and the per-file / multi-file drivers.

    JavaScript strings are sequences of UTF-16 code units; they are
    modelled as [list N].  Library functions ([String.prototype.trim],
    [path.extname], ...) are written out following ECMA-262 and Node's
    POSIX [path] module. *)

From Stdlib Require Import String Ascii.
From Stdlib Require Import List Bool NArith ZArith Lia.
From Stdlib Require Decimal DecimalN.
Import ListNotations.

Set Implicit Arguments.
Set Warnings "-register-all".

(* ================================================================== *)
(** * JavaScript strings *)
(* ================================================================== *)

Definition jsstring := list N.

(** An ASCII literal as a sequence of code units. *)
Definition lit (s : string) : jsstring :=
  map N_of_ascii (list_ascii_of_string s).

Fixpoint jseq (a b : jsstring) : bool :=
  match a, b with
  | [], [] => true
  | x :: a', y :: b' => N.eqb x y && jseq a' b'
  | _, _ => false
  end.

(** [s.startsWith(p)] *)
Fixpoint startsWith (p s : jsstring) : bool :=
  match p, s with
  | [], _ => true
  | x :: p', y :: s' => N.eqb x y && startsWith p' s'
  | _ :: _, [] => false
  end.

(** [s.endsWith(p)] *)
Definition endsWith (p s : jsstring) : bool :=
  startsWith (rev p) (rev s).

(** [s.includes(p)] *)
Fixpoint includes (p s : jsstring) : bool :=
  startsWith p s ||
  match s with
  | [] => false
  | _ :: s' => includes p s'
  end.

(** ECMA-262 WhiteSpace and LineTerminator code points, the characters
    stripped by [trim]. All of them lie in the basic plane. *)
Definition is_ws (c : N) : bool :=
  ((9 <=? c) && (c <=? 13) || (c =? 32) || (c =? 160) || (c =? 5760)
   || (8192 <=? c) && (c <=? 8202)
   || (c =? 8232) || (c =? 8233) || (c =? 8239) || (c =? 8287)
   || (c =? 12288) || (c =? 65279))%N.

Fixpoint trimStart (s : jsstring) : jsstring :=
  match s with
  | [] => []
  | c :: s' => if is_ws c then trimStart s' else s
  end.

Definition trimEnd (s : jsstring) : jsstring :=
  rev (trimStart (rev s)).

(** [s.trim()] *)
Definition trim (s : jsstring) : jsstring :=
  trimEnd (trimStart s).

(** [s.substring(n)] for a constant [n >= 0]. *)
Definition substring (n : nat) (s : jsstring) : jsstring := skipn n s.

(** [s.split("\n")]: never empty, ["".split("\n")] is [[""]]. *)
Fixpoint split_nl (s : jsstring) : list jsstring :=
  match s with
  | [] => [[]]
  | c :: s' =>
      if (c =? 10)%N then [] :: split_nl s'
      else match split_nl s' with
           | h :: r => (c :: h) :: r
           | [] => [[c]]
           end
  end.

(** [a.join("\n")] *)
Fixpoint join_nl (a : list jsstring) : jsstring :=
  match a with
  | [] => []
  | [x] => x
  | x :: a' => x ++ 10%N :: join_nl a'
  end.

(** [a.slice(start, end)] with the relative-index rule of
    [Array.prototype.slice]: a negative index counts from the end. *)
Definition slice_index (len i : Z) : Z :=
  if (i <? 0)%Z then Z.max (len + i) 0 else Z.min i len.

Definition slice {A} (a : list A) (from to : Z) : list A :=
  let len := Z.of_nat (length a) in
  let k := slice_index len from in
  let final := slice_index len to in
  firstn (Z.to_nat (final - k)) (skipn (Z.to_nat k) a).

(** Decimal digits of a non-negative integer, as produced by a template
    literal [`${n}`]. *)
Fixpoint uint_codes (d : Decimal.uint) : jsstring :=
  match d with
  | Decimal.Nil => []
  | Decimal.D0 d => 48%N :: uint_codes d
  | Decimal.D1 d => 49%N :: uint_codes d
  | Decimal.D2 d => 50%N :: uint_codes d
  | Decimal.D3 d => 51%N :: uint_codes d
  | Decimal.D4 d => 52%N :: uint_codes d
  | Decimal.D5 d => 53%N :: uint_codes d
  | Decimal.D6 d => 54%N :: uint_codes d
  | Decimal.D7 d => 55%N :: uint_codes d
  | Decimal.D8 d => 56%N :: uint_codes d
  | Decimal.D9 d => 57%N :: uint_codes d
  end.

Definition number_toString (n : N) : jsstring := uint_codes (N.to_uint n).

(* ================================================================== *)
(** * path.extname (Node, POSIX) *)
(* ================================================================== *)

Record ExtState := mkExtState {
  startDot : Z;
  startPart : Z;
  endIdx : Z;
  matchedSlash : bool;
  preDotState : Z
}.

(** The backwards loop of [path.posix.extname]; [rev_chars] holds the
    code units at indices [i], [i-1], ..., [0]. *)
Fixpoint extname_loop (rev_chars : list N) (i : Z) (st : ExtState) : ExtState :=
  match rev_chars with
  | [] => st
  | code :: rest =>
      if (code =? 47)%N then
        if negb (matchedSlash st) then
          mkExtState (startDot st) (i + 1) (endIdx st)
                     (matchedSlash st) (preDotState st)
        else extname_loop rest (i - 1) st
      else
        let st1 :=
          if (endIdx st =? -1)%Z
          then mkExtState (startDot st) (startPart st) (i + 1) false
                          (preDotState st)
          else st in
        let st2 :=
          if (code =? 46)%N then
            if (startDot st1 =? -1)%Z
            then mkExtState i (startPart st1) (endIdx st1)
                            (matchedSlash st1) (preDotState st1)
            else if negb (preDotState st1 =? 1)%Z
            then mkExtState (startDot st1) (startPart st1) (endIdx st1)
                            (matchedSlash st1) 1
            else st1
          else if negb (startDot st1 =? -1)%Z
          then mkExtState (startDot st1) (startPart st1) (endIdx st1)
                          (matchedSlash st1) (-1)
          else st1 in
        extname_loop rest (i - 1) st2
  end.

Definition extname (path : jsstring) : jsstring :=
  let st := extname_loop (rev path) (Z.of_nat (length path) - 1)
                         (mkExtState (-1) 0 (-1) true 0) in
  if ((startDot st =? -1) || (endIdx st =? -1) || (preDotState st =? 0)
      || ((preDotState st =? 1) && (startDot st =? endIdx st - 1)
          && (startDot st =? startPart st + 1)))%Z
  then []
  else slice path (startDot st) (endIdx st).

(* ================================================================== *)
(** * Language registry *)
(* ================================================================== *)

(** [LanguageKey = keyof typeof SUPPORTED_LANGUAGES] *)
Inductive LanguageKey := js | ts | python | rust | java | go.

Definition LanguageKey_eqb (a b : LanguageKey) : bool :=
  match a, b with
  | js, js | ts, ts | python, python | rust, rust | java, java | go, go => true
  | _, _ => false
  end.

(** The registry in key order, as [Object.entries] enumerates it; the
    grammar objects themselves are opaque and left out. *)
Definition SUPPORTED_LANGUAGES : list (LanguageKey * list jsstring) :=
  [ (js, [lit ".js"; lit ".jsx"]);
    (ts, [lit ".ts"; lit ".tsx"]);
    (python, [lit ".py"]);
    (rust, [lit ".rs"]);
    (java, [lit ".java"]);
    (go, [lit ".go"]) ].

Definition array_includes (a : list jsstring) (x : jsstring) : bool :=
  existsb (jseq x) a.

Definition getLanguageForFile (filePath : jsstring) : option LanguageKey :=
  let ext := extname filePath in
  option_map fst
    (find (fun entry => array_includes (snd entry) ext) SUPPORTED_LANGUAGES).

(** The extension table of one tag. *)
Definition extensions (l : LanguageKey) : list jsstring :=
  match find (fun entry => LanguageKey_eqb (fst entry) l) SUPPORTED_LANGUAGES with
  | Some entry => snd entry
  | None => []
  end.

(* ================================================================== *)
(** * Documentation classifier *)
(* ================================================================== *)

Record DocumentationValidation := mkValidation {
  isValid : bool;
  doc : option jsstring
}.

Definition invalid : DocumentationValidation := mkValidation false None.
Definition valid (d : jsstring) : DocumentationValidation :=
  mkValidation true (Some d).

Definition triple_quote : jsstring := [34; 34; 34]%N.

(** The per-language acceptance test of the [switch]. *)
Definition accepts (language : LanguageKey) (commentText : jsstring) : bool :=
  let trimmedComment := trim commentText in
  match language with
  | js | ts =>
      (startsWith (lit "/**") trimmedComment && endsWith (lit "*/") trimmedComment)
      || (startsWith (lit "/*") trimmedComment && endsWith (lit "*/") trimmedComment)
  | python =>
      includes triple_quote commentText || startsWith (lit "#") trimmedComment
  | rust =>
      includes (lit "///") commentText
      || includes (lit "//!") commentText
      || (includes (lit "/*") commentText && includes (lit "*/") commentText)
  | java =>
      startsWith (lit "/**") trimmedComment
      || startsWith (lit "/*") trimmedComment
      || startsWith (lit "//") trimmedComment
  | go =>
      startsWith (lit "//") trimmedComment
      && negb (includes (lit "TODO") trimmedComment)
      && (2 <? length trimmedComment)%nat
      && (0 <? length (trim (substring 2 trimmedComment)))%nat
  end.

Definition isValidDocumentation (commentText : jsstring)
    (language : option LanguageKey) : DocumentationValidation :=
  match language with
  | None => invalid
  | Some l =>
      match commentText with
      | [] => invalid
      | _ :: _ => if accepts l commentText then valid (trim commentText) else invalid
      end
  end.

(* ================================================================== *)
(** * Records *)
(* ================================================================== *)

(** A tree-sitter [SyntaxNode], reduced to the members the program reads:
    [type], [text], [startPosition.row], [endPosition.row]. Rows are
    unsigned. *)
Record SyntaxNode := mkSyntaxNode {
  node_type : jsstring;
  node_text : jsstring;
  startPosition_row : N;
  endPosition_row : N
}.

Record QueryCapture := mkCapture {
  capture_name : jsstring;
  capture_node : SyntaxNode
}.

(** A [QueryMatch]; [pattern] is the index of the top-level pattern,
    and each query here is a single top-level alternation. *)
Record QueryMatch := mkMatch {
  pattern : nat;
  captures : list QueryCapture
}.

(** A value of the ESLint/typescript-estree AST: plain objects, arrays
    and primitives. A source location object
    [{start: {line, column}, end: {line, column}}] is the dedicated leaf
    [JLoc]; an absent property is [undefined]. *)
Inductive JsVal :=
| JNull
| JBool (b : bool)
| JNum (z : Z)
| JStr (s : jsstring)
| JLoc (start_line start_column end_line end_column : Z)
| JArr (elements : list JsVal)
| JObj (fields : list (jsstring * JsVal)).

Inductive FunctionNode :=
| TreeNode (n : SyntaxNode)
| AstNode (n : JsVal).

(** [interface Function] *)
Record Function := mkFunction {
  name : jsstring;
  node : FunctionNode;
  filePath : jsstring;
  startLine : Z;
  endLine : Z;
  sourceCode : jsstring;
  isDocumented : bool;
  cleanedDoc : option jsstring
}.

(** [interface DocumentedFunction]; [documentation] is whatever value the
    pushing site holds, [None] standing for [undefined]. *)
Record DocumentedFunction := mkDocumented {
  entry_name : jsstring;
  documentation : option jsstring;
  entry_filePath : jsstring
}.

Inductive Exn :=
| TypeError
| ExternalError (message : jsstring).

Inductive Result (A : Type) :=
| Ok (a : A)
| Throw (e : Exn).
Arguments Ok {A} a.
Arguments Throw {A} e.

(** Lines written to the console, with the path already made relative
    to the working directory. *)
Inductive LogEntry :=
| LogScanning (relativePath : jsstring)
| LogErrorProcessing (relativePath : jsstring) (error : Exn)
| LogSuccess (functionName : jsstring)
| LogParserError (error : Exn).

(** Process-wide state: the exported [documentedFunctions] array and the
    console. *)
Record Global := mkGlobal {
  documentedFunctions : list DocumentedFunction;
  console : list LogEntry
}.

Definition push_documented (e : DocumentedFunction) (g : Global) : Global :=
  mkGlobal (documentedFunctions g ++ [e]) (console g).

Definition console_write (l : LogEntry) (g : Global) : Global :=
  mkGlobal (documentedFunctions g) (console g ++ [l]).

(* ================================================================== *)
(** * Function-pattern catalog *)
(* ================================================================== *)




(* ================================================================== *)
(** * Tree extraction engine *)
(* ================================================================== *)

(** [`${name}-${row}`] *)
Definition funcKey (functionName : jsstring) (row : N) : jsstring :=
  functionName ++ lit "-" ++ number_toString row.

Definition find_capture (n : string) (m : QueryMatch) : option QueryCapture :=
  find (fun capture => jseq (capture_name capture) (lit n)) (captures m).

Definition filter_captures (n : string) (m : QueryMatch) : list QueryCapture :=
  filter (fun capture => jseq (capture_name capture) (lit n)) (captures m).

(** The [for (const doc of docNodes)] loop: the validation of the first
    doc node the classifier accepts. *)
Fixpoint firstValidDoc (docNodes : list QueryCapture)
    (language : option LanguageKey) : option DocumentationValidation :=
  match docNodes with
  | [] => None
  | d :: rest =>
      let validation := isValidDocumentation (node_text (capture_node d)) language in
      if isValid validation then Some validation
      else firstValidDoc rest language
  end.

(** Loop state of [processMatchesAndCollect]: the local
    [processedFunctions] set, the caller's [functions] array and the
    global state. *)
Record Collect := mkCollect {
  processedFunctions : list jsstring;
  functions : list Function;
  global : Global
}.

(** The body of [matches.forEach]. *)
Definition collectMatch (filePath_ sourceCode_ : jsstring)
    (st : Collect) (m : QueryMatch) : Collect :=
  let functionNode := find_capture "function" m in
  let docNodes := filter_captures "doc" m in
  let functionName := find_capture "function_name" m in
  match functionNode, functionName with
  | Some functionNode, Some functionName =>
      let fname := node_text (capture_node functionName) in
      let row := startPosition_row (capture_node functionNode) in
      let endrow := endPosition_row (capture_node functionNode) in
      let key := funcKey fname row in
      if array_includes (processedFunctions st) key then st
      else
        let language := getLanguageForFile filePath_ in
        let found := firstValidDoc docNodes language in
        let isDocumented_ := match found with Some _ => true | None => false end in
        let cleanedDoc_ := match found with Some v => doc v | None => None end in
        let g := match found with
                 | Some _ => push_documented (mkDocumented fname cleanedDoc_ filePath_)
                                             (global st)
                 | None => global st
                 end in
        mkCollect (processedFunctions st ++ [key])
          (functions st ++
             [mkFunction fname (TreeNode (capture_node functionNode)) filePath_
                (Z.of_N row) (Z.of_N endrow)
                (join_nl (slice (split_nl sourceCode_) (Z.of_N row) (Z.of_N endrow + 1)))
                isDocumented_ cleanedDoc_])
          g
  | _, _ => st
  end.

Definition processMatchesAndCollect (matches : list QueryMatch)
    (filePath_ sourceCode_ : jsstring) (functions_ : list Function)
    (g : Global) : list Function * Global :=
  let st := fold_left (collectMatch filePath_ sourceCode_) matches
                      (mkCollect [] functions_ g) in
  (functions st, global st).

(* ================================================================== *)
(** * Fallback extraction engine (ESLint AST) *)
(* ================================================================== *)

(** Property read [v[k]]; [None] is [undefined]. Only objects carry the
    properties the walker asks for. *)
Fixpoint assoc (k : jsstring) (fs : list (jsstring * JsVal)) : option JsVal :=
  match fs with
  | [] => None
  | (k', v) :: fs' => if jseq k k' then Some v else assoc k fs'
  end.

Definition get (k : string) (v : JsVal) : option JsVal :=
  match v with
  | JObj fs => assoc (lit k) fs
  | _ => None
  end.

(** JavaScript truthiness. *)
Definition truthy (v : JsVal) : bool :=
  match v with
  | JNull => false
  | JBool b => b
  | JNum z => negb (z =? 0)%Z
  | JStr s => match s with [] => false | _ => true end
  | JLoc _ _ _ _ | JArr _ | JObj _ => true
  end.

(** [typeof v === "object"] for a truthy [v]. *)
Definition is_object (v : JsVal) : bool :=
  match v with
  | JLoc _ _ _ _ | JArr _ | JObj _ => true
  | _ => false
  end.

(** [node.id?.name], [node.key?.name]: the truthy name, if any.
    Identifier names are strings. *)
Definition name_of (k : string) (n : JsVal) : option jsstring :=
  match get k n with
  | Some child =>
      match get "name" child with
      | Some (JStr (c :: s)) => Some (c :: s)
      | _ => None
      end
  | None => None
  end.

Definition type_is (t : string) (n : JsVal) : bool :=
  match get "type" n with
  | Some (JStr s) => jseq s (lit t)
  | _ => false
  end.

(** [node.init?.type === t] *)
Definition init_type_is (t : string) (n : JsVal) : bool :=
  match get "init" n with
  | Some i => type_is t i
  | None => false
  end.

Definition is_some {A} (o : option A) : bool :=
  match o with Some _ => true | None => false end.

(** The node test of [traverse]: named functions and methods. *)
Definition is_named_function (n : JsVal) : bool :=
  (type_is "FunctionDeclaration" n && is_some (name_of "id" n))
  || (type_is "MethodDefinition" n && is_some (name_of "key" n))
  || (type_is "FunctionExpression" n && is_some (name_of "id" n))
  || (type_is "VariableDeclarator" n && is_some (name_of "id" n)
      && (init_type_is "ArrowFunctionExpression" n
          || init_type_is "FunctionExpression" n)).

(** [node.id?.name || node.key?.name || (node.init ? node.id?.name : null)] *)
Definition functionName_of (n : JsVal) : option jsstring :=
  match name_of "id" n with
  | Some s => Some s
  | None =>
      match name_of "key" n with
      | Some s => Some s
      | None =>
          match get "init" n with
          | Some i => if truthy i then name_of "id" n else None
          | None => None
          end
      end
  end.

(** [node.loc] when it is a location object. *)
Definition loc_of (n : JsVal) : option (Z * Z) :=
  match get "loc" n with
  | Some (JLoc sl _ el _) => Some (sl, el)
  | _ => None
  end.

Record DocResult := mkDocResult {
  hasDoc : bool;
  docText : option jsstring
}.

(** The [while (currentLine >= 0)] loop of [getJSDocComment], with
    [currentLine = n - 1]. Reading a line past the end of [lines] gives
    [undefined], whose [.trim()] throws. *)
Fixpoint scanUp (lines : list jsstring) (n : nat) (docLines : list jsstring)
    (insideComment : bool) : Result (list jsstring) :=
  match n with
  | O => Ok docLines
  | S currentLine =>
      match nth_error lines currentLine with
      | None => Throw TypeError
      | Some raw =>
          let line := trim raw in
          match line with
          | [] => scanUp lines currentLine docLines insideComment
          | _ :: _ =>
              if startsWith (lit "/**") line then Ok (line :: docLines)
              else
                let docLines' :=
                  if insideComment || startsWith (lit "*") line
                     || startsWith (lit "*/") line
                  then line :: docLines else docLines in
                if negb (startsWith (lit "*") line)
                   && negb (startsWith (lit "*/") line)
                   && negb insideComment
                then Ok docLines'
                else scanUp lines currentLine docLines' insideComment
          end
      end
  end.

Definition getJSDocComment (n : JsVal) (sourceCode_ : jsstring) : Result DocResult :=
  match get "loc" n with
  | None => Ok (mkDocResult false None)
  | Some l =>
      if negb (truthy l) then Ok (mkDocResult false None) else
      match loc_of n with
      | None => Throw TypeError
      | Some (sl, _) =>
          let lines := split_nl sourceCode_ in
          let functionStartLine := (sl - 1)%Z in
          let currentLine := (functionStartLine - 1)%Z in
          match scanUp lines (Z.to_nat (currentLine + 1)) [] false with
          | Throw e => Throw e
          | Ok docLines =>
              match docLines with
              | [] => Ok (mkDocResult false None)
              | _ :: _ => Ok (mkDocResult true (Some (join_nl docLines)))
              end
          end
      end
  end.

(** A string is truthy when it is non-empty. *)
Definition truthy_text (o : option jsstring) : bool :=
  match o with
  | Some (_ :: _) => true
  | _ => false
  end.

(** What [traverse] does at a node before it descends: [None] is the
    early [return], which also skips the children. *)
Definition visit (sourceCode_ filePath_ : jsstring) (n : JsVal)
    (fs : list Function) (g : Global)
  : Result (option (list Function * Global)) :=
  if is_named_function n then
    match functionName_of n with
    | None => Ok None
    | Some functionName =>
        match loc_of n with
        | None => Throw TypeError
        | Some (sl, el) =>
            let startLine_ := (sl - 1)%Z in
            let endLine_ := (el - 1)%Z in
            match getJSDocComment n sourceCode_ with
            | Throw e => Throw e
            | Ok docResult =>
                let isDocumented_ := hasDoc docResult in
                let g' :=
                  if isDocumented_ && truthy_text (docText docResult)
                  then push_documented
                         (mkDocumented functionName (docText docResult) filePath_) g
                  else g in
                Ok (Some
                  (fs ++ [mkFunction functionName (AstNode n) filePath_
                            startLine_ endLine_
                            (join_nl (slice (split_nl sourceCode_)
                                            startLine_ (endLine_ + 1)))
                            isDocumented_ (docText docResult)],
                   g'))
            end
        end
    end
  else Ok (Some (fs, g)).

(** The loop [for (const key in node)] over the properties of a node
    (for an array, its elements), [value] reading the property value:
    [f] is run on every truthy value of type object; a throw ends the
    loop and keeps what was pushed. *)
Fixpoint forEachObject {A : Type} (value : A -> JsVal)
    (f : JsVal -> list Function -> Global -> Result unit * (list Function * Global))
    (properties : list A) (fs : list Function) (g : Global)
  : Result unit * (list Function * Global) :=
  match properties with
  | [] => (Ok tt, (fs, g))
  | p :: rest =>
      if truthy (value p) && is_object (value p) then
        match f (value p) fs g with
        | (Ok _, (fs', g')) => forEachObject value f rest fs' g'
        | (Throw e, st) => (Throw e, st)
        end
      else forEachObject value f rest fs g
  end.

(** [traverse]: the state is the [functions] array and the global state. *)
Fixpoint traverse (sourceCode_ filePath_ : jsstring) (n : JsVal)
    (fs : list Function) (g : Global) {struct n}
  : Result unit * (list Function * Global) :=
  match n with
  | JObj fields =>
      match visit sourceCode_ filePath_ n fs g with
      | Throw e => (Throw e, (fs, g))
      | Ok None => (Ok tt, (fs, g))
      | Ok (Some (fs1, g1)) =>
          forEachObject snd (traverse sourceCode_ filePath_) fields fs1 g1
      end
  | JArr elements =>
      forEachObject (fun v => v) (traverse sourceCode_ filePath_) elements fs g
  | _ => (Ok tt, (fs, g))
  end.

Definition processJavaScriptAST (ast : JsVal) (sourceCode_ filePath_ : jsstring)
    (lintMessages : list JsVal) (functions_ : list Function) (g : Global)
  : Result unit * (list Function * Global) :=
  traverse sourceCode_ filePath_ ast functions_ g.

(* ================================================================== *)
(** * Per-file and multi-file drivers *)
(* ================================================================== *)

(** The collaborators outside this module: the file system, the
    tree-sitter binding, ESLint and its parser, the documentation
    generator. Each fallible call either returns or throws. *)
Record Env := mkEnv {
  (** [path.relative(process.cwd(), filePath)] *)
  relative : jsstring -> jsstring;
  (** [fs.readFileSync(filePath, "utf-8")] *)
  readFileSync : jsstring -> Result jsstring;
  (** [parser.setLanguage], [parser.parse], [new Parser.Query] on the
      language's query and [query.matches(tree.rootNode)] *)
  queryMatches : LanguageKey -> jsstring -> Result (list QueryMatch);
  (** [new ESLint({...})] with its dynamic parser import *)
  newESLint : Result unit;
  (** [eslint.lintText(sourceCode, {filePath})], reduced to
      [results[0]?.messages]; [None] when that is missing *)
  lintText : jsstring -> jsstring -> Result (option (list JsVal));
  (** [parseJavaScriptAST(sourceCode, filePath)] *)
  parseJavaScriptAST : jsstring -> jsstring -> Result JsVal;
  (** [generateDocs(undocumentedFunctions, options)] *)
  generateDocs : list Function -> list DocumentedFunction
}.

(** The [catch] block shared by both per-file functions. *)
Definition catch_file (env : Env) (filePath_ : jsstring) (e : Exn) (g : Global)
  : list Function * Global :=
  ([], console_write (LogErrorProcessing (relative env filePath_) e) g).

(** The [try] block of [processJavaScriptFile]. *)
Definition tryJavaScriptFile (env : Env) (filePath_ : jsstring) (g : Global)
  : Result (list Function) * Global :=
  match readFileSync env filePath_ with
  | Throw e => (Throw e, g)
  | Ok sourceCode_ =>
      match lintText env sourceCode_ filePath_ with
      | Throw e => (Throw e, g)
      | Ok messages =>
          let g1 := console_write (LogScanning (relative env filePath_)) g in
          match messages with
          | None => (Ok [], g1)
          | Some lintMessages =>
              match parseJavaScriptAST env sourceCode_ filePath_ with
              | Throw e => (Throw e, g1)
              | Ok ast =>
                  match processJavaScriptAST ast sourceCode_ filePath_
                          lintMessages [] g1 with
                  | (Throw e, (_, g2)) => (Throw e, g2)
                  | (Ok _, (functions_, g2)) => (Ok functions_, g2)
                  end
              end
          end
      end
  end.

Definition processJavaScriptFile (env : Env) (filePath_ : jsstring) (g : Global)
  : Result (list Function * Global) :=
  match newESLint env with
  | Throw e => Throw e
  | Ok _ =>
      match tryJavaScriptFile env filePath_ g with
      | (Ok functions_, g') => Ok (functions_, g')
      | (Throw e, g') => Ok (catch_file env filePath_ e g')
      end
  end.

(** The [try] block of [processFile] for the tree-sitter languages. *)
Definition tryTreeFile (env : Env) (filePath_ : jsstring)
    (language : LanguageKey) (g : Global) : Result (list Function) * Global :=
  match readFileSync env filePath_ with
  | Throw e => (Throw e, g)
  | Ok sourceCode_ =>
      match queryMatches env language sourceCode_ with
      | Throw e => (Throw e, g)
      | Ok matches =>
          match matches with
          | [] => (Ok [], g)
          | _ :: _ =>
              let g1 := console_write (LogScanning (relative env filePath_)) g in
              let '(functions_, g2) :=
                processMatchesAndCollect matches filePath_ sourceCode_ [] g1 in
              (Ok functions_, g2)
          end
      end
  end.

Definition processFile (env : Env) (filePath_ : jsstring)
    (language : LanguageKey) (g : Global) : Result (list Function * Global) :=
  match language with
  | js | ts => processJavaScriptFile env filePath_ g
  | _ =>
      match tryTreeFile env filePath_ language g with
      | (Ok functions_, g') => Ok (functions_, g')
      | (Throw e, g') => Ok (catch_file env filePath_ e g')
      end
  end.

(** The [for await (const func of functions)] loop. *)
Fixpoint reportFunctions (functions_ : list Function) (g : Global)
  : list Function * Global :=
  match functions_ with
  | [] => ([], g)
  | func :: rest =>
      if isDocumented func then
        reportFunctions rest (console_write (LogSuccess (name func)) g)
      else
        let '(undocumented, g') := reportFunctions rest g in
        (func :: undocumented, g')
  end.

(** The file loop of [parseAndDocument] inside its [try]; the result
    lists, file by file, what [processFile] returned. *)
Fixpoint scanFiles (env : Env) (files : list jsstring) (g : Global)
  : Result (list (jsstring * list Function)) * Global :=
  match files with
  | [] => (Ok [], g)
  | file :: rest =>
      match getLanguageForFile file with
      | None => scanFiles env rest g
      | Some language =>
          match processFile env file language g with
          | Throw e => (Throw e, g)
          | Ok (functions_, g1) =>
              let '(undocumentedFunctions, g2) := reportFunctions functions_ g1 in
              let returnedFunctions := generateDocs env undocumentedFunctions in
              let g3 := mkGlobal (documentedFunctions g2 ++ returnedFunctions)
                                 (console g2) in
              match scanFiles env rest g3 with
              | (Ok out, g4) => (Ok ((file, functions_) :: out), g4)
              | (Throw e, g4) => (Throw e, g4)
              end
          end
      end
  end.

(** [parseAndDocument], up to the README prompt: the files come from
    [findFiles]. *)
Definition parseAndDocument (env : Env) (files : list jsstring) (g : Global)
  : Global :=
  match scanFiles env files g with
  | (Ok _, g') => g'
  | (Throw e, g') => console_write (LogParserError e) g'
  end.

(* ================================================================== *)
(** * Specification-side definitions *)
(* ================================================================== *)

(** The [(name, startLine)] key of a record. *)
Definition record_key (f : Function) : jsstring * Z := (name f, startLine f).

(** The entry a documented record stands for. *)
Definition entry_of (f : Function) : DocumentedFunction :=
  mkDocumented (name f) (cleanedDoc f) (filePath f).

(** The key of a match that has both required captures. *)
Definition match_key (m : QueryMatch) : option (jsstring * N) :=
  match find_capture "function" m, find_capture "function_name" m with
  | Some fn, Some nm =>
      Some (node_text (capture_node nm), startPosition_row (capture_node fn))
  | _, _ => None
  end.

Definition key_eqb (a b : jsstring * N) : bool :=
  jseq (fst a) (fst b) && N.eqb (snd a) (snd b).

(** Deduplication as the specification words it: a match is retained
    when it has both captures and no earlier match had its key. *)
Fixpoint retained_matches (seen : list (jsstring * N)) (ms : list QueryMatch)
  : list QueryMatch :=
  match ms with
  | [] => []
  | m :: rest =>
      match match_key m with
      | Some k =>
          if existsb (key_eqb k) seen then retained_matches seen rest
          else m :: retained_matches (seen ++ [k]) rest
      | None => retained_matches seen rest
      end
  end.

(** The record [collectMatch] pushes for a retained match. *)
Definition match_record (filePath_ sourceCode_ : jsstring) (m : QueryMatch)
  : list Function :=
  match find_capture "function" m, find_capture "function_name" m with
  | Some fn, Some nm =>
      let found := firstValidDoc (filter_captures "doc" m)
                                 (getLanguageForFile filePath_) in
      let row := startPosition_row (capture_node fn) in
      let endrow := endPosition_row (capture_node fn) in
      [mkFunction (node_text (capture_node nm)) (TreeNode (capture_node fn))
         filePath_ (Z.of_N row) (Z.of_N endrow)
         (join_nl (slice (split_nl sourceCode_) (Z.of_N row) (Z.of_N endrow + 1)))
         (is_some found)
         (match found with Some v => doc v | None => None end)]
  | _, _ => []
  end.

(** The string the processed set stores for a key. *)
Definition key_string (k : jsstring * N) : jsstring := funcKey (fst k) (snd k).

(** A match key as a record key. *)
Definition key_Z (k : jsstring * N) : jsstring * Z := (fst k, Z.of_N (snd k)).

(** Every tag of the registry. *)
Definition all_languages : list LanguageKey := map fst SUPPORTED_LANGUAGES.

(** The global state once the documented ones among the new records
    have been handed off. *)
Definition hand_off (new : list Function) (g : Global) : Global :=
  mkGlobal (documentedFunctions g ++ map entry_of (filter isDocumented new))
           (console g).

(** The classifier's verdict on one captured doc node. *)
Definition doc_accepted (language : option LanguageKey) (d : QueryCapture) : bool :=
  isValid (isValidDocumentation (node_text (capture_node d)) language).

(** How many entries of the collection carry a given name and path. *)
Definition count_entries (n p : jsstring) (l : list DocumentedFunction) : nat :=
  length (filter (fun e => jseq (entry_name e) n && jseq (entry_filePath e) p) l).


(** The records [processFile] returns for a file, taken on an empty
    global state. *)
Definition file_records (env : Env) (filePath_ : jsstring) : list Function :=
  match getLanguageForFile filePath_ with
  | None => []
  | Some language =>
      match processFile env filePath_ language (mkGlobal [] []) with
      | Ok (functions_, _) => functions_
      | Throw _ => []
      end
  end.

(** The per-file results of a scan in which every supported file is
    processed on its own. *)
Fixpoint scan_results (env : Env) (files : list jsstring)
  : list (jsstring * list Function) :=
  match files with
  | [] => []
  | file :: rest =>
      match getLanguageForFile file with
      | None => scan_results env rest
      | Some _ => (file, file_records env file) :: scan_results env rest
      end
  end.

(* ================================================================== *)
(** * Induction over AST values *)
(* ================================================================== *)

Section JsVal_induction.
Variable P : JsVal -> Prop.
Hypothesis Hnull : P JNull.
Hypothesis Hbool : forall b, P (JBool b).
Hypothesis Hnum : forall z, P (JNum z).
Hypothesis Hstr : forall s, P (JStr s).
Hypothesis Hloc : forall a b c d, P (JLoc a b c d).
Hypothesis Harr : forall l, Forall P l -> P (JArr l).
Hypothesis Hobj : forall fs, Forall (fun kv => P (snd kv)) fs -> P (JObj fs).

Fixpoint JsVal_nested_ind (v : JsVal) : P v :=
  match v with
  | JNull => Hnull
  | JBool b => Hbool b
  | JNum z => Hnum z
  | JStr s => Hstr s
  | JLoc a b c d => Hloc a b c d
  | JArr l =>
      Harr ((fix go (l : list JsVal) : Forall P l :=
               match l with
               | [] => Forall_nil _
               | x :: l' => Forall_cons x (JsVal_nested_ind x) (go l')
               end) l)
  | JObj fs =>
      Hobj ((fix go (l : list (jsstring * JsVal))
               : Forall (fun kv => P (snd kv)) l :=
               match l with
               | [] => Forall_nil _
               | x :: l' =>
                   Forall_cons (P := fun kv => P (snd kv)) x
                               (JsVal_nested_ind (snd x)) (go l')
               end) fs)
  end.
End JsVal_induction.

(* ================================================================== *)
(** * Concrete inputs *)
(* ================================================================== *)

Definition capture (n ty : string) (text : jsstring) (row endrow : N)
  : QueryCapture :=
  mkCapture (lit n) (mkSyntaxNode (lit ty) text row endrow).

Definition empty_global : Global := mkGlobal [] [].

Definition identifier (n : string) : JsVal :=
  JObj [(lit "type", JStr (lit "Identifier")); (lit "name", JStr (lit n))].

(** [const foo = function foo() {}] as typescript-estree parses it. *)
Definition named_expression_source : jsstring :=
  lit "const foo = function foo() {}".

Definition named_expression_ast : JsVal :=
  JObj [(lit "type", JStr (lit "Program"));
        (lit "body", JArr [
           JObj [(lit "type", JStr (lit "VariableDeclaration"));
                 (lit "declarations", JArr [
                    JObj [(lit "type", JStr (lit "VariableDeclarator"));
                          (lit "id", identifier "foo");
                          (lit "init",
                           JObj [(lit "type", JStr (lit "FunctionExpression"));
                                 (lit "id", identifier "foo");
                                 (lit "params", JArr []);
                                 (lit "body",
                                  JObj [(lit "type", JStr (lit "BlockStatement"));
                                        (lit "body", JArr []);
                                        (lit "loc", JLoc 1 27 1 29)]);
                                 (lit "loc", JLoc 1 12 1 29)]);
                          (lit "loc", JLoc 1 6 1 29)]]);
                 (lit "kind", JStr (lit "const"));
                 (lit "loc", JLoc 1 0 1 29)]]);
        (lit "sourceType", JStr (lit "module"));
        (lit "loc", JLoc 1 0 1 29)].

(** A function declaration [function <n>(...) {...}] on one line. *)
Definition function_declaration (n : string) (line : Z) : JsVal :=
  JObj [(lit "type", JStr (lit "FunctionDeclaration"));
        (lit "id", identifier n);
        (lit "params", JArr []);
        (lit "body", JObj [(lit "type", JStr (lit "BlockStatement"));
                           (lit "body", JArr []);
                           (lit "loc", JLoc line 19 line 35)]);
        (lit "loc", JLoc line 0 line 35)].

Definition program (body : list JsVal) (last_line : Z) : JsVal :=
  JObj [(lit "type", JStr (lit "Program"));
        (lit "body", JArr body);
        (lit "sourceType", JStr (lit "module"));
        (lit "loc", JLoc 1 0 last_line 35)].

(** The five source lines of the upward-scan scenario. *)
Definition doubles_lines : list jsstring :=
  [lit ""; lit "/**"; lit " * Doubles x"; lit " */";
   lit "function double(x) { return x*2 }"].

Definition doubles_source : jsstring := join_nl doubles_lines.

Definition doubles_ast : JsVal := program [function_declaration "double" 5] 5.

(** A plain block comment, not a doc block, above a function. *)
Definition plain_block_lines : list jsstring :=
  [lit "/*"; lit " * plain"; lit " */"; lit "function f() { return 1 }"].

Definition plain_block_source : jsstring := join_nl plain_block_lines.

Definition plain_block_ast : JsVal := program [function_declaration "f" 4] 4.

Definition docstring (s : string) : jsstring :=
  triple_quote ++ lit s ++ triple_quote.

(** Two Python classes with an [__init__] each, both with a docstring;
    each method is matched by the four alternatives of the query, the
    documented ones first. *)
Definition two_inits_lines : list jsstring :=
  [lit "class A:";
   lit "    def __init__(self):";
   lit "        " ++ docstring "Make an A.";
   lit "class B:";
   lit "    def __init__(self):";
   lit "        " ++ docstring "Make a B."].

Definition two_inits_source : jsstring := join_nl two_inits_lines.

Definition init_match (with_doc : bool) (row : N) (d : string)
  : QueryMatch :=
  mkMatch 0
    ([capture "function_name" "identifier" (lit "__init__") row row]
     ++ (if with_doc
         then [capture "doc" "string" (docstring d) (row + 1) (row + 1)]
         else [])
     ++ [capture "function" "function_definition"
           (lit "def __init__(self):") row (row + 1)]).

Definition two_inits_matches : list QueryMatch :=
  [init_match true 1 "Make an A."; init_match true 1 "Make an A.";
   init_match false 1 "Make an A."; init_match false 1 "Make an A.";
   init_match true 4 "Make a B."; init_match true 4 "Make a B.";
   init_match false 4 "Make a B."; init_match false 4 "Make a B."].

(** A Python function whose first statement is a single-quoted string. *)
Definition single_quoted_lines : list jsstring :=
  [lit "def add(a, b):"; lit "    'Adds two numbers.'"; lit "    return a + b"].

Definition single_quoted_source : jsstring := join_nl single_quoted_lines.

Definition add_match (d : option jsstring) : QueryMatch :=
  mkMatch 0
    ([capture "function_name" "identifier" (lit "add") 0 0]
     ++ match d with
        | Some text => [capture "doc" "string" text 1 1]
        | None => []
        end
     ++ [capture "function" "function_definition" (lit "def add(a, b):") 0 2]).

Definition single_quoted_matches : list QueryMatch :=
  [add_match (Some (lit "'Adds two numbers.'")); add_match None].

(** The same function with a triple-quoted docstring. *)
Definition triple_quoted_lines : list jsstring :=
  [lit "def add(a, b):"; lit "    " ++ docstring "Adds two numbers.";
   lit "    return a + b"].

Definition triple_quoted_source : jsstring := join_nl triple_quoted_lines.

Definition triple_quoted_matches : list QueryMatch :=
  [add_match (Some (docstring "Adds two numbers.")); add_match None].




(** Three Python files; the binding throws on the second. *)
Definition one_py : jsstring := lit "one.py".
Definition two_py : jsstring := lit "two.py".
Definition three_py : jsstring := lit "three.py".

Definition invalid_argument : Exn := ExternalError (lit "Invalid argument").

Definition three_files_env : Env :=
  mkEnv (fun filePath_ => filePath_)
    (fun filePath_ =>
       if jseq filePath_ one_py then Ok single_quoted_source
       else if jseq filePath_ two_py then Ok two_inits_source
       else if jseq filePath_ three_py then Ok triple_quoted_source
       else Throw (ExternalError (lit "ENOENT")))
    (fun _ sourceCode_ =>
       if jseq sourceCode_ single_quoted_source then Ok single_quoted_matches
       else if jseq sourceCode_ two_inits_source then Throw invalid_argument
       else Ok triple_quoted_matches)
    (Ok tt)
    (fun _ _ => Ok (Some []))
    (fun _ _ => Throw (ExternalError (lit "Unexpected token")))
    (fun _ => []).

(* ================================================================== *)
(** * File discovery: the ignore patterns of findFiles *)
(* ================================================================== *)

(** The patterns [findFiles] always ignores. *)
Definition default_ignores : list jsstring :=
  [lit "node_modules/**"; lit "dist/**"; lit "build/**"; lit ".git/**";
   lit "**/*.d.ts"; lit "**/vendor/**"; lit "**/target/**";
   lit "**/__pycache__/**"; lit "public/**"; lit ".*/**"].

(** The patterns read from [.gitignore]; [content] is what
    [fs.readFileSync(".gitignore", "utf-8")] returns or throws. *)
Definition gitignorePatterns (content : Result jsstring) : list jsstring :=
  match content with
  | Ok gitignoreContent =>
      filter (fun line =>
                match line with [] => false | _ :: _ => true end
                && negb (startsWith (lit "#") line))
             (split_nl gitignoreContent)
  | Throw _ => []
  end.

(** The callback of [ignorePatterns.map]. *)
Definition expandIgnorePattern (pattern_ : jsstring) : list jsstring :=
  if negb (includes (lit "*") pattern_)
  then [pattern_; lit "**/" ++ pattern_; lit "./" ++ pattern_]
  else [pattern_].

Definition allIgnorePatterns (content : Result jsstring)
    (ignorePatterns : list jsstring) : list jsstring :=
  default_ignores ++ gitignorePatterns content
  ++ flat_map expandIgnorePattern ignorePatterns.

(** [findFiles]: the files [glob] yields for the patterns under the
    ignore list; [glob] is the library call. *)
Definition findFiles (glob : list jsstring -> list jsstring -> Result (list jsstring))
    (content : Result jsstring) (patterns ignorePatterns : list jsstring)
  : Result (list jsstring) :=
  glob patterns (allIgnorePatterns content ignorePatterns).

(* ================================================================== *)
(** * Documentation generator: formats and the cleaning of responses *)
(* ================================================================== *)

(** The keys of [DOCUMENTATION_FORMATS]. *)
Inductive FormatKey := fmt_ts | fmt_js | fmt_java | fmt_py | fmt_rs | fmt_go.

(** [s.replace(pattern, replacement)] for a string pattern: the first
    occurrence is replaced. *)
Fixpoint replace_first (pattern_ replacement s : jsstring) : jsstring :=
  if startsWith pattern_ s then replacement ++ skipn (length pattern_) s
  else match s with
       | [] => []
       | c :: rest => c :: replace_first pattern_ replacement rest
       end.

(** [DOCUMENTATION_FORMATS[langKey]]; [None] is [undefined]. *)
Definition documentationFormat (langKey : jsstring) : option FormatKey :=
  if jseq langKey (lit "ts") then Some fmt_ts
  else if jseq langKey (lit "js") then Some fmt_js
  else if jseq langKey (lit "java") then Some fmt_java
  else if jseq langKey (lit "py") then Some fmt_py
  else if jseq langKey (lit "rs") then Some fmt_rs
  else if jseq langKey (lit "go") then Some fmt_go
  else None.

(** The first lines of a task of [generateDocs]: the extension without
    its dot, the language key, the format looked up for it. *)
Definition formatForFile (filePath_ : jsstring) : option FormatKey :=
  let fileExt := skipn 1 (extname filePath_) in
  let langKey := replace_first (lit "tsx") (lit "ts") fileExt in
  documentationFormat langKey.

(** The language whose documentation a format writes. *)
Definition format_language (k : FormatKey) : LanguageKey :=
  match k with
  | fmt_ts => ts
  | fmt_js => js
  | fmt_java => java
  | fmt_py => python
  | fmt_rs => rust
  | fmt_go => go
  end.

(** [langMap[ext] || ext] of [getLanguageName]. *)
Definition getLanguageName (ext : jsstring) : jsstring :=
  if jseq ext (lit "ts") then lit "TypeScript"
  else if jseq ext (lit "tsx") then lit "TypeScript"
  else if jseq ext (lit "js") then lit "JavaScript"
  else if jseq ext (lit "jsx") then lit "JavaScript"
  else if jseq ext (lit "py") then lit "Python"
  else if jseq ext (lit "rs") then lit "Rust"
  else if jseq ext (lit "java") then lit "Java"
  else if jseq ext (lit "go") then lit "Go"
  else ext.

(** A code unit of the class [[\w-]]. *)
Definition tag_char (c : N) : bool :=
  ((48 <=? c) && (c <=? 57) || (65 <=? c) && (c <=? 90)
   || (97 <=? c) && (c <=? 122) || (c =? 95) || (c =? 45))%N.

Definition fence : jsstring := [96; 96; 96]%N.

(** Where the scan of the global regular expression
    [/```[\w-]*\n?|\n```/g] stands: looking for the next match; inside
    the literal part of a match with [k] code units still to drop,
    followed by the tag when [tag] is set; inside the tag [[\w-]*\n?]. *)
Inductive FenceMode :=
| Copy
| Drop (k : nat) (tag : bool)
| Tag.

(** The replacement of every match of that expression by the empty
    string: matches are found
    from left to right, the first alternative is tried first, the tag is
    taken greedily, a match is dropped and the search goes on after
    it. *)
Fixpoint stripFences (mode : FenceMode) (s : jsstring) : jsstring :=
  match s with
  | [] => []
  | c :: rest =>
      let fresh :=
        if startsWith fence s then stripFences (Drop 2 true) rest
        else if startsWith (10%N :: fence) s then stripFences (Drop 3 false) rest
        else c :: stripFences Copy rest in
      match mode with
      | Copy => fresh
      | Drop (S (S k)) tag => stripFences (Drop (S k) tag) rest
      | Drop 1 true => stripFences Tag rest
      | Drop 1 false => stripFences Copy rest
      | Drop 0 _ => fresh
      | Tag =>
          if tag_char c then stripFences Tag rest
          else if (c =? 10)%N then stripFences Copy rest
          else fresh
      end
  end.

(** The callback of the Go branch: a line that does not start with two
    slashes gets them. *)
Definition prefixGoLine (line : jsstring) : jsstring :=
  if startsWith (lit "//") (trim line) then line else lit "// " ++ line.

Definition validateAndCleanResponse (response : jsstring) (langKey : FormatKey)
  : Result jsstring :=
  let cleaned := trim (stripFences Copy response) in
  match langKey with
  | fmt_ts | fmt_js =>
      if negb (startsWith (lit "/**") cleaned) || negb (endsWith (lit "*/") cleaned)
      then Throw (ExternalError (lit "Invalid JSDoc format"))
      else Ok cleaned
  | fmt_java =>
      if negb (startsWith (lit "/**") cleaned) || negb (endsWith (lit "*/") cleaned)
      then Throw (ExternalError (lit "Invalid Javadoc format"))
      else Ok cleaned
  | fmt_py =>
      if negb (startsWith triple_quote cleaned) || negb (endsWith triple_quote cleaned)
      then Throw (ExternalError (lit "Invalid Python docstring format"))
      else Ok cleaned
  | fmt_rs =>
      if negb (startsWith (lit "///") cleaned)
      then Throw (ExternalError (lit "Invalid Rustdoc format"))
      else Ok cleaned
  | fmt_go =>
      if negb (startsWith (lit "//") cleaned)
      then Throw (ExternalError (lit "Invalid GoDoc format"))
      else Ok (join_nl (map prefixGoLine (split_nl cleaned)))
  end.

(* ================================================================== *)
(** * Documentation generator: the edits of the file *)
(* ================================================================== *)

(** [lines[i]]; [None] is [undefined]. *)
Definition lookup_line (lines : list jsstring) (i : Z) : option jsstring :=
  if (i <? 0)%Z then None else nth_error lines (Z.to_nat i).

(** [a.splice(start, 0, item)], with the relative-index rule of
    [Array.prototype.splice]. *)
Definition splice_insert {A} (a : list A) (start : Z) (item : A) : list A :=
  let k := Z.to_nat (slice_index (Z.of_nat (length a)) start) in
  firstn k a ++ item :: skipn k a.

(** The loop [while (insertLine <= func.endLine &&
    lines[insertLine].trim() === "") insertLine++]; [remaining] counts
    the indices up to [func.endLine] still to look at. *)
Fixpoint firstBodyLine (lines : list jsstring) (remaining : nat) (insertLine : Z)
  : Result Z :=
  match remaining with
  | O => Ok insertLine
  | S r =>
      match lookup_line lines insertLine with
      | None => Throw TypeError
      | Some l =>
          match trim l with
          | [] => firstBodyLine lines r (insertLine + 1)
          | _ :: _ => Ok insertLine
          end
      end
  end.

(** [defLine.match(/^\s*/)?.[0]]: the leading white space. *)
Fixpoint leading_ws (s : jsstring) : jsstring :=
  match s with
  | [] => []
  | c :: rest => if is_ws c then c :: leading_ws rest else []
  end.

(** What a task of [generateDocs] writes back to the file: the content
    it read with the documentation inserted. *)
Definition insertDocumentation (fileContent : jsstring) (func : Function)
    (cleanedDoc_ : jsstring) (langKey : FormatKey) : Result jsstring :=
  let lines := split_nl fileContent in
  match langKey with
  | fmt_py =>
      match firstBodyLine lines (Z.to_nat (endLine func - startLine func))
                          (startLine func + 1) with
      | Throw e => Throw e
      | Ok insertLine =>
          match lookup_line lines (startLine func) with
          | None => Throw TypeError
          | Some defLine =>
              let indentation := leading_ws defLine in
              let indentedDoc :=
                join_nl (map (fun line => indentation ++ lit "    " ++ line)
                             (split_nl cleanedDoc_)) in
              Ok (join_nl (splice_insert lines insertLine indentedDoc))
          end
      end
  | _ => Ok (join_nl (splice_insert lines (startLine func) cleanedDoc_))
  end.

(** [undocumentedFunctions.sort((a, b) => b.startLine - a.startLine)]:
    the sort is stable, so it is the insertion of each function before
    the first one that starts no later. *)
Fixpoint insertByStartLine (f : Function) (sorted : list Function) : list Function :=
  match sorted with
  | [] => [f]
  | g :: rest =>
      if (startLine g <=? startLine f)%Z then f :: sorted
      else g :: insertByStartLine f rest
  end.

Definition sortByStartLine (fs : list Function) : list Function :=
  fold_right insertByStartLine [] fs.

(** The tasks run one after the other, each on the file as the one
    before left it; [docFor] is the cleaned documentation generated for
    a function. A task that throws ends the run. *)
Fixpoint applyEdits (docFor : Function -> jsstring) (langKey : FormatKey)
    (tasks : list Function) (fileContent : jsstring) : Result jsstring :=
  match tasks with
  | [] => Ok fileContent
  | func :: rest =>
      match insertDocumentation fileContent func (docFor func) langKey with
      | Throw e => Throw e
      | Ok written => applyEdits docFor langKey rest written
      end
  end.

(** The file after [generateDocs] has documented the functions of one
    file. *)
Definition documentFile (docFor : Function -> jsstring) (langKey : FormatKey)
    (undocumentedFunctions : list Function) (fileContent : jsstring)
  : Result jsstring :=
  applyEdits docFor langKey (sortByStartLine undocumentedFunctions) fileContent.

(* ================================================================== *)
(** * Configuration: output levels, environment, file patterns *)
(* ================================================================== *)

(** The [output] option of [CliOptions]. *)
Inductive OutputLevel := minimal | normal | verbose.

Definition OutputLevel_eqb (a b : OutputLevel) : bool :=
  match a, b with
  | minimal, minimal | normal, normal | verbose, verbose => true
  | _, _ => false
  end.

(** The table [outputLevels] of [log]. *)
Definition outputLevels (outputLevel : OutputLevel) : list OutputLevel :=
  match outputLevel with
  | minimal => [minimal]
  | normal => [minimal; normal]
  | verbose => [minimal; normal; verbose]
  end.

(** [log]: [output] is [options.output]; the lines written with
    [console.log] are threaded through. *)
Definition log (message : jsstring) (level : OutputLevel)
    (output : option OutputLevel) (written : list jsstring) : list jsstring :=
  let outputLevel := match output with Some o => o | None => normal end in
  if existsb (OutputLevel_eqb level) (outputLevels outputLevel)
  then written ++ [message]
  else written.

Inductive SupportedProvider :=
| openai | anthropic | cohere | mistral | azure | groq | bedrock.

Definition provider_name (provider : SupportedProvider) : jsstring :=
  match provider with
  | openai => lit "openai"
  | anthropic => lit "anthropic"
  | cohere => lit "cohere"
  | mistral => lit "mistral"
  | azure => lit "azure"
  | groq => lit "groq"
  | bedrock => lit "bedrock"
  end.

Definition ENV_REQUIREMENTS (provider : SupportedProvider) : list jsstring :=
  match provider with
  | openai => [lit "OPENAI_API_KEY"]
  | anthropic => [lit "ANTHROPIC_API_KEY"]
  | azure => [lit "AZURE_API_KEY"; lit "AZURE_RESOURCE_NAME"]
  | mistral => [lit "MISTRAL_API_KEY"]
  | cohere => [lit "COHERE_API_KEY"]
  | groq => [lit "GROQ_API_KEY"]
  | bedrock => [lit "AWS_ACCESS_KEY_ID"; lit "AWS_SECRET_ACCESS_KEY"; lit "AWS_REGION"]
  end.

(** [a.join(sep)] *)
Fixpoint join_with (sep : jsstring) (a : list jsstring) : jsstring :=
  match a with
  | [] => []
  | [x] => x
  | x :: a' => x ++ sep ++ join_with sep a'
  end.

(** The filter of [validateEnvironmentVariables]:
    [!process.env[envVar] || process.env[envVar]?.trim() === ""]. *)
Definition envVarMissing (env : jsstring -> option jsstring) (envVar : jsstring) : bool :=
  match env envVar with
  | None => true
  | Some [] => true
  | Some v => match trim v with [] => true | _ :: _ => false end
  end.

(** [validateEnvironmentVariables]; [env] is [process.env], the error
    thrown is an [Error] with the message given. *)
Definition validateEnvironmentVariables (env : jsstring -> option jsstring)
    (provider : SupportedProvider) : Result unit :=
  let requiredVars := ENV_REQUIREMENTS provider in
  let missingVars := filter (envVarMissing env) requiredVars in
  if (0 <? length missingVars)
  then Throw (ExternalError
                (lit "Missing required environment variables for "
                 ++ provider_name provider ++ lit ": "
                 ++ join_with (lit ", ") missingVars
                 ++ 10%N :: lit "Please set these in your .env file."))
  else Ok tt.

(** [pattern.replace(/^\.\//, "").replace(/\\/g, "/")] *)
Definition normalizePattern (pattern_ : jsstring) : jsstring :=
  map (fun c => if (c =? 92)%N then 47%N else c)
      (if startsWith (lit "./") pattern_ then skipn 2 pattern_ else pattern_).

(** One turn of the loop over the ignore patterns in the filter of
    [processFilePatterns]: whether the pattern makes the filter return
    false for the file. [minimatch] is the library call. *)
Definition ignoredBy (minimatch : jsstring -> jsstring -> bool)
    (file ignorePattern : jsstring) : bool :=
  let normalizedPattern := normalizePattern ignorePattern in
  if negb (includes (lit "*") normalizedPattern)
  then jseq file normalizedPattern
       || jseq file (lit "./" ++ normalizedPattern)
       || endsWith (lit "/" ++ normalizedPattern) file
       || jseq file ignorePattern
  else minimatch file normalizedPattern.

(** [[...new Set(files)]]: the first occurrence of each file, in order. *)
Fixpoint newSet (seen files : list jsstring) : list jsstring :=
  match files with
  | [] => []
  | file :: rest =>
      if existsb (jseq file) seen then newSet seen rest
      else file :: newSet (file :: seen) rest
  end.

(** [processFilePatterns]; [globSync] is [glob.sync] with the options
    of the call, [relative] is [path.relative(process.cwd(), _)]. The
    value returned is modelled, not the debug output. *)
Definition processFilePatterns (globSync : jsstring -> list jsstring)
    (relative : jsstring -> jsstring)
    (minimatch : jsstring -> jsstring -> bool)
    (includePatterns ignorePatterns : list jsstring) : list jsstring :=
  let patterns :=
    if (0 <? length includePatterns) then includePatterns else [lit "**/*"] in
  let defaultIgnores := [lit "**/node_modules/**"; lit "**/.git/**"] in
  let allIgnores := defaultIgnores ++ ignorePatterns in
  let allFiles :=
    flat_map (fun pattern_ => globSync (normalizePattern pattern_)) patterns in
  let relativeFiles :=
    map (fun file => map (fun c => if (c =? 92)%N then 47%N else c) (relative file))
        allFiles in
  let filteredFiles :=
    filter (fun file => negb (existsb (ignoredBy minimatch file) allIgnores))
           relativeFiles in
  newSet [] filteredFiles.

(* ================================================================== *)
(** * Further specification-side definitions *)
(* ================================================================== *)

(** A line holds no line feed. *)
Definition no_newline (l : jsstring) : Prop := ~ In 10%N l.

(** The matches whose key is not [k]. *)
Definition other_keys (k : jsstring * N) (ms : list QueryMatch) : list QueryMatch :=
  filter (fun m => match match_key m with
                   | Some k' => negb (key_eqb k' k)
                   | None => true
                   end) ms.

(** What both engines keep true of a record: it carries the path of the
    file, it is documented exactly when it has a text, and that text is
    not empty. *)
Definition record_consistent (filePath_ : jsstring) (f : Function) : Prop :=
  filePath f = filePath_ /\
  isDocumented f = is_some (cleanedDoc f) /\
  (forall d, cleanedDoc f = Some d -> d <> []).


(** A record whose source text is the line range it names. *)
Definition record_shape (sourceCode_ filePath_ : jsstring) (f : Function) : Prop :=
  record_consistent filePath_ f /\
  sourceCode f
  = join_nl (slice (split_nl sourceCode_) (startLine f) (endLine f + 1)).

(** A line that is not empty. *)
Definition nonblank (l : jsstring) : bool :=
  match l with [] => false | _ :: _ => true end.

(** A function with a line comment above it. *)
Definition line_comment_lines : list jsstring :=
  [lit "// Doubles x"; lit ""; lit "function double(x) { return x*2 }"].

Definition line_comment_source : jsstring := join_nl line_comment_lines.

(** What a file adds to the collection: the entries of its documented
    records, then what the generator returns for the others. *)
Definition file_contribution (env : Env) (result : jsstring * list Function)
  : list DocumentedFunction :=
  map entry_of (filter isDocumented (snd result))
  ++ generateDocs env (filter (fun f => negb (isDocumented f)) (snd result)).

(** No file of the list is a JavaScript or TypeScript file. *)
Definition tree_files (files : list jsstring) : Prop :=
  forall file, In file files ->
    getLanguageForFile file <> Some js /\ getLanguageForFile file <> Some ts.

Definition missing_module : Exn := ExternalError (lit "Cannot find module").

(** The three-file environment on a machine where ESLint cannot be
    constructed. *)
Definition no_eslint_env : Env :=
  mkEnv (relative three_files_env) (readFileSync three_files_env)
    (queryMatches three_files_env) (Throw missing_module)
    (lintText three_files_env) (parseJavaScriptAST three_files_env)
    (generateDocs three_files_env).

(** The display name of a language in the prompt. *)
Definition display_name (l : LanguageKey) : jsstring :=
  match l with
  | js => lit "JavaScript"
  | ts => lit "TypeScript"
  | python => lit "Python"
  | rust => lit "Rust"
  | java => lit "Java"
  | go => lit "Go"
  end.

(** A response wrapped in a fenced block. *)
Definition fenced_response (tag body : string) : jsstring :=
  fence ++ lit tag ++ 10%N :: lit body ++ 10%N :: fence.

(** [item] put at index [k]. *)
Definition insert_at {A} (k : nat) (item : A) (l : list A) : list A :=
  firstn k l ++ item :: skipn k l.

(** Items put one after the other at their indices. *)
Definition insert_all (ps : list (nat * jsstring)) (chunks : list jsstring)
  : list jsstring :=
  fold_left (fun ch p => insert_at (fst p) (snd p) ch) ps chunks.

(** The lines of a file with, above line [i], the texts [above i]. *)
Fixpoint annotate (above : nat -> list jsstring) (i : nat) (lines : list jsstring)
  : list jsstring :=
  match lines with
  | [] => []
  | l :: rest => above i ++ l :: annotate above (S i) rest
  end.

(** The texts of the pairs at index [i], last pair first. *)
Definition texts_at (ps : list (nat * jsstring)) (i : nat) : list jsstring :=
  map snd (rev (filter (fun p => fst p =? i) ps)).

(** The documentation of the functions that start on line [i], the last
    function of the list first. *)
Definition docs_above (docFor : Function -> jsstring) (funcs : list Function)
    (i : nat) : list jsstring :=
  map docFor (rev (filter (fun f => (startLine f =? Z.of_nat i)%Z) funcs)).

(** The index and the documentation of a function. *)
Definition edit_of (docFor : Function -> jsstring) (f : Function) : nat * jsstring :=
  (Z.to_nat (startLine f), docFor f).

(** Indices that never go up. *)
Fixpoint descending (ps : list (nat * jsstring)) : Prop :=
  match ps with
  | [] => True
  | p :: rest => (forall q, In q rest -> fst q <= fst p) /\ descending rest
  end.

(** A pair moved up by one line. *)
Definition shift_up (p : nat * jsstring) : nat * jsstring := (pred (fst p), snd p).

(** An undocumented record of three Java methods on lines 2, 4 and 6. *)
Definition method_record (n : string) (line : Z) : Function :=
  mkFunction (lit n)
    (TreeNode (mkSyntaxNode (lit "method_declaration") (lit "void m() {}")
                 (Z.to_N line) (Z.to_N line)))
    (lit "/repo/Job.java") line line (lit "  void m() {}") false None.

Definition three_methods_source : jsstring :=
  join_nl [lit "class Job {"; lit "  void a() {}"; lit ""; lit "  void b() {}";
           lit ""; lit "  void c() {}"; lit "}"].

Definition javadoc_for (f : Function) : jsstring :=
  join_nl [lit "  /**"; lit "   * " ++ name f; lit "   */"].

(** How much an output level shows. *)
Definition level_rank (l : OutputLevel) : nat :=
  match l with minimal => 0 | normal => 1 | verbose => 2 end.

(** The files the include patterns select, as [processFilePatterns]
    sees them: relative, with forward slashes. *)
Definition selected_files (globSync : jsstring -> list jsstring)
    (relative : jsstring -> jsstring) (includePatterns : list jsstring)
  : list jsstring :=
  map (fun file => map (fun c => if (c =? 92)%N then 47%N else c) (relative file))
      (flat_map (fun pattern_ => globSync (normalizePattern pattern_))
                (match includePatterns with [] => [lit "**/*"] | _ => includePatterns end)).

(* ================================================================== *)
(** * Strings: basic facts *)
(* ================================================================== *)

Lemma jseq_eq (a b : jsstring) : jseq a b = true <-> a = b.
Proof.
  revert b; induction a as [|x a IH]; intros [|y b]; simpl;
    try (split; [discriminate | discriminate]); try tauto.
  rewrite andb_true_iff, N.eqb_eq, IH.
  split; [intros [-> ->]; reflexivity | intros H; inversion H; auto].
Qed.

Lemma jseq_refl (a : jsstring) : jseq a a = true.
Proof. apply jseq_eq; reflexivity. Qed.

Lemma jseq_neq (a b : jsstring) : jseq a b = false <-> a <> b.
Proof.
  rewrite <- jseq_eq. destruct (jseq a b); split; congruence.
Qed.

Lemma startsWith_spec (p s : jsstring) :
  startsWith p s = true <-> exists t, s = p ++ t.
Proof.
  revert s; induction p as [|x p IH]; intros s; simpl.
  - split; [intros _; exists s; reflexivity | reflexivity].
  - destruct s as [|y s].
    + split; [discriminate | intros [t Ht]; discriminate].
    + rewrite andb_true_iff, N.eqb_eq, IH. split.
      * intros [-> [t ->]]. exists t; reflexivity.
      * intros [t Ht]. inversion Ht; subst. split; [reflexivity | eauto].
Qed.

Lemma includes_spec (p s : jsstring) :
  includes p s = true <-> exists a b, s = a ++ p ++ b.
Proof.
  induction s as [|c s IH].
  - simpl. rewrite orb_false_r, startsWith_spec. split.
    + intros [t Ht]. exists [], t. exact Ht.
    + intros [a [b H]]. destruct a; [exists b; exact H | discriminate].
  - cbn [includes]. rewrite orb_true_iff, startsWith_spec, IH. split.
    + intros [[t Ht] | [a [b H]]].
      * exists [], t. exact Ht.
      * exists (c :: a), b. rewrite H. reflexivity.
    + intros [[|x a] [b H]].
      * left. exists b. exact H.
      * right. inversion H; subst. exists a, b. reflexivity.
Qed.

Lemma trimStart_nil (s : jsstring) :
  trimStart s = [] <-> forallb is_ws s = true.
Proof.
  induction s as [|c s IH]; simpl; [tauto|].
  destruct (is_ws c); simpl; [exact IH | split; discriminate].
Qed.

Lemma trimStart_split (s : jsstring) :
  exists w, s = w ++ trimStart s /\ forallb is_ws w = true.
Proof.
  induction s as [|c s [w [Hs Hw]]]; simpl.
  - exists []. auto.
  - destruct (is_ws c) eqn:E.
    + exists (c :: w). simpl. rewrite E, Hw. split; [congruence | reflexivity].
    + exists []. auto.
Qed.

Lemma trimStart_head (s : jsstring) c r :
  trimStart s = c :: r -> is_ws c = false.
Proof.
  induction s as [|x s IH]; simpl; [discriminate|].
  destruct (is_ws x) eqn:E; [exact IH | intros H; inversion H; subst; exact E].
Qed.

Lemma forallb_rev {A} (f : A -> bool) (l : list A) :
  forallb f (rev l) = forallb f l.
Proof.
  induction l as [|x l IH]; simpl; [reflexivity|].
  rewrite forallb_app, IH. simpl. rewrite andb_true_r, andb_comm. reflexivity.
Qed.

(** [trim] leaves nothing exactly when every code unit is white space. *)
Lemma trim_nil (s : jsstring) : trim s = [] <-> forallb is_ws s = true.
Proof.
  unfold trim, trimEnd. split.
  - intros H. apply (f_equal (@rev N)) in H. rewrite rev_involutive in H.
    simpl in H. apply trimStart_nil in H. rewrite forallb_rev in H.
    destruct (trimStart_split s) as [w [Hs Hw]].
    rewrite Hs, forallb_app, Hw, H. reflexivity.
  - intros H. apply trimStart_nil in H. rewrite H. reflexivity.
Qed.

Lemma trim_nonempty (s : jsstring) :
  0 < length (trim s) <-> exists c, In c s /\ is_ws c = false.
Proof.
  split.
  - intros H. destruct (forallb is_ws s) eqn:E.
    + apply trim_nil in E. rewrite E in H. simpl in H. lia.
    + clear H. induction s as [|c s IH]; simpl in E; [discriminate|].
      destruct (is_ws c) eqn:Ec.
      * destruct (IH E) as [d [Hd Hw]]. exists d. split; [right|]; assumption.
      * exists c. split; [left; reflexivity | assumption].
  - intros [c [Hin Hc]]. destruct (trim s) eqn:E; [|simpl; lia].
    apply trim_nil in E. rewrite forallb_forall in E.
    rewrite (E c Hin) in Hc. discriminate.
Qed.

(* ================================================================== *)
(** * Keys of the processed set *)
(* ================================================================== *)

Lemma uint_codes_inj (d d' : Decimal.uint) :
  uint_codes d = uint_codes d' -> d = d'.
Proof.
  revert d'; induction d; intros d'; destruct d'; simpl; intros H;
    try discriminate; try reflexivity;
    inversion H; f_equal; auto.
Qed.

Lemma uint_codes_digits (d : Decimal.uint) :
  forall c, In c (uint_codes d) -> (48 <= c <= 57)%N.
Proof.
  induction d; simpl; intros c Hc; try tauto;
    (destruct Hc as [<- | Hc]; [lia | auto]).
Qed.

Lemma number_toString_inj (a b : N) :
  number_toString a = number_toString b -> a = b.
Proof.
  unfold number_toString. intros H. apply uint_codes_inj in H.
  rewrite <- (DecimalN.Unsigned.of_to a), <- (DecimalN.Unsigned.of_to b), H.
  reflexivity.
Qed.

Lemma number_toString_no_hyphen (a : N) : ~ In 45%N (number_toString a).
Proof.
  intros H. apply uint_codes_digits in H. lia.
Qed.

Lemma hyphen_split (s1 s2 d1 d2 : jsstring) :
  ~ In 45%N d1 -> ~ In 45%N d2 ->
  s1 ++ 45%N :: d1 = s2 ++ 45%N :: d2 -> s1 = s2 /\ d1 = d2.
Proof.
  revert s2; induction s1 as [|c s1 IH]; intros s2 H1 H2 H.
  - destruct s2 as [|c2 s2]; simpl in H.
    + inversion H. auto.
    + inversion H; subst. exfalso. apply H1.
      apply in_or_app. right. left. reflexivity.
  - destruct s2 as [|c2 s2]; simpl in H.
    + inversion H; subst. exfalso. apply H2.
      apply in_or_app. right. left. reflexivity.
    + inversion H; subst. destruct (IH s2 H1 H2 H4) as [-> ->]. auto.
Qed.

(** The string key identifies the pair it is built from. *)
Lemma funcKey_inj (n1 n2 : jsstring) (r1 r2 : N) :
  funcKey n1 r1 = funcKey n2 r2 -> n1 = n2 /\ r1 = r2.
Proof.
  unfold funcKey. change (lit "-") with [45%N]. simpl. intros H.
  apply hyphen_split in H; try apply number_toString_no_hyphen.
  destruct H as [-> H]. apply number_toString_inj in H. auto.
Qed.

(* ================================================================== *)
(** * Tree extraction engine: deduplication and hand-off *)
(* ================================================================== *)

Lemma key_eqb_eq (a b : jsstring * N) : key_eqb a b = true <-> a = b.
Proof.
  destruct a as [n1 r1], b as [n2 r2]. unfold key_eqb. simpl.
  rewrite andb_true_iff, jseq_eq, N.eqb_eq.
  split; [intros [-> ->]; reflexivity | intros H; inversion H; auto].
Qed.

Lemma existsb_key_In (k : jsstring * N) seen :
  existsb (key_eqb k) seen = true <-> In k seen.
Proof.
  rewrite existsb_exists. split.
  - intros [x [Hin Hx]]. apply key_eqb_eq in Hx. subst. exact Hin.
  - intros H. exists k. split; [exact H | apply key_eqb_eq; reflexivity].
Qed.

(** Looking a key up in the processed set is looking the pair up. *)
Lemma processed_lookup (k : jsstring * N) seen :
  array_includes (map key_string seen) (key_string k) = existsb (key_eqb k) seen.
Proof.
  unfold array_includes. induction seen as [|x seen IH]; simpl; [reflexivity|].
  rewrite IH. f_equal.
  destruct (key_eqb k x) eqn:E.
  - apply key_eqb_eq in E. subst. apply jseq_refl.
  - apply jseq_neq. intros H. unfold key_string in H.
    apply funcKey_inj in H. destruct H as [H1 H2].
    assert (k = x) by (destruct k, x; simpl in *; congruence).
    apply key_eqb_eq in H. congruence.
Qed.

Lemma collectMatch_step (filePath_ sourceCode_ : jsstring) seen st m :
  processedFunctions st = map key_string seen ->
  let new := match_record filePath_ sourceCode_ m in
  collectMatch filePath_ sourceCode_ st m =
    match match_key m with
    | Some k =>
        if existsb (key_eqb k) seen then st
        else mkCollect (processedFunctions st ++ [key_string k])
               (functions st ++ new)
               (mkGlobal (documentedFunctions (global st)
                          ++ map entry_of (filter isDocumented new))
                         (console (global st)))
    | None => st
    end.
Proof.
  intros Hp. cbn zeta. unfold collectMatch, match_key, match_record.
  destruct (find_capture "function" m) as [fn|];
    [destruct (find_capture "function_name" m) as [nm|]|]; try reflexivity.
  set (k := (node_text (capture_node nm), startPosition_row (capture_node fn))).
  change (funcKey (node_text (capture_node nm))
            (startPosition_row (capture_node fn))) with (key_string k).
  rewrite Hp, processed_lookup.
  destruct (existsb (key_eqb k) seen); [reflexivity|].
  destruct (firstValidDoc (filter_captures "doc" m)
              (getLanguageForFile filePath_)) as [v|];
    cbn [is_some app filter isDocumented map]; f_equal.
  rewrite app_nil_r. destruct (global st). reflexivity.
Qed.

Lemma collect_fold (filePath_ sourceCode_ : jsstring) (ms : list QueryMatch) :
  forall seen st,
    processedFunctions st = map key_string seen ->
    let st' := fold_left (collectMatch filePath_ sourceCode_) ms st in
    let new := flat_map (match_record filePath_ sourceCode_)
                        (retained_matches seen ms) in
    functions st' = functions st ++ new /\
    global st' =
      mkGlobal (documentedFunctions (global st)
                ++ map entry_of (filter isDocumented new))
               (console (global st)).
Proof.
  induction ms as [|m ms IH]; intros seen st Hp; cbn zeta.
  - simpl. rewrite !app_nil_r. split; [reflexivity | destruct (global st); reflexivity].
  - cbn [fold_left retained_matches].
    rewrite (collectMatch_step filePath_ sourceCode_ seen st m Hp). cbn zeta.
    destruct (match_key m) as [k|]; [|apply IH; exact Hp].
    destruct (existsb (key_eqb k) seen); [apply IH; exact Hp|].
    match goal with |- context [fold_left _ ms ?s] => set (st1 := s) end.
    destruct (IH (seen ++ [k]) st1) as [Hf Hg].
    { subst st1. simpl. rewrite Hp, map_app. reflexivity. }
    cbn zeta in Hf, Hg. rewrite Hf, Hg. subst st1.
    cbn [functions global flat_map documentedFunctions console].
    rewrite filter_app, map_app, <- !app_assoc. split; reflexivity.
Qed.

(** The emitted records are those of the retained matches, in order,
    and one entry is appended per documented record. *)
Lemma processMatchesAndCollect_spec (ms : list QueryMatch)
    (filePath_ sourceCode_ : jsstring) (fs0 : list Function) (g : Global) :
  let new := flat_map (match_record filePath_ sourceCode_)
                      (retained_matches [] ms) in
  processMatchesAndCollect ms filePath_ sourceCode_ fs0 g =
    (fs0 ++ new,
     mkGlobal (documentedFunctions g ++ map entry_of (filter isDocumented new))
              (console g)).
Proof.
  cbn zeta. unfold processMatchesAndCollect.
  destruct (collect_fold filePath_ sourceCode_ ms [] (mkCollect [] fs0 g) eq_refl)
    as [Hf Hg].
  cbn zeta in Hf, Hg. rewrite Hf, Hg. reflexivity.
Qed.

Lemma match_record_key filePath_ sourceCode_ m k :
  match_key m = Some k ->
  map record_key (match_record filePath_ sourceCode_ m) = [key_Z k].
Proof.
  unfold match_key, match_record.
  destruct (find_capture "function" m); [|discriminate].
  destruct (find_capture "function_name" m); [|discriminate].
  intros H; inversion H; subst. reflexivity.
Qed.

Lemma match_record_nokey filePath_ sourceCode_ m :
  match_key m = None -> match_record filePath_ sourceCode_ m = [].
Proof.
  unfold match_key, match_record.
  destruct (find_capture "function" m);
    [destruct (find_capture "function_name" m)|]; try discriminate; reflexivity.
Qed.

Lemma key_Z_inj (a b : jsstring * N) : key_Z a = key_Z b -> a = b.
Proof.
  destruct a, b. unfold key_Z. simpl. intros H. inversion H.
  f_equal. lia.
Qed.

Lemma retained_NoDup filePath_ sourceCode_ (ms : list QueryMatch) :
  forall seen,
    NoDup (map key_Z seen) ->
    NoDup (map key_Z seen ++
           map record_key (flat_map (match_record filePath_ sourceCode_)
                                    (retained_matches seen ms))).
Proof.
  induction ms as [|m ms IH]; intros seen Hs; simpl.
  - rewrite app_nil_r. exact Hs.
  - destruct (match_key m) as [k|] eqn:Ek; [|apply IH; exact Hs].
    destruct (existsb (key_eqb k) seen) eqn:Ein; [apply IH; exact Hs|].
    cbn [flat_map]. rewrite map_app, (match_record_key _ _ _ Ek).
    specialize (IH (seen ++ [k])).
    rewrite map_app, <- app_assoc in IH. apply IH.
    apply NoDup_app; repeat split.
    + exact Hs.
    + constructor; [intros [] | constructor].
    + intros a Ha [<- | []].
      apply in_map_iff in Ha. destruct Ha as [x [Hx Hin]].
      apply key_Z_inj in Hx. subst x.
      apply existsb_key_In in Hin. congruence.
Qed.

(** Within one call no two emitted records share [(name, startLine)]. *)
Lemma processMatchesAndCollect_NoDup (ms : list QueryMatch)
    (filePath_ sourceCode_ : jsstring) (g : Global) :
  NoDup (map record_key
           (fst (processMatchesAndCollect ms filePath_ sourceCode_ [] g))).
Proof.
  rewrite processMatchesAndCollect_spec. simpl.
  apply (retained_NoDup filePath_ sourceCode_ ms []). constructor.
Qed.

(* ================================================================== *)
(** * Language registry *)
(* ================================================================== *)

Lemma all_languages_complete (l : LanguageKey) : In l all_languages.
Proof. destruct l; simpl; tauto. Qed.

Lemma all_languages_NoDup : NoDup all_languages.
Proof.
  unfold all_languages. simpl.
  repeat (constructor; [simpl; intuition discriminate|]). constructor.
Qed.

Ltac ext_case e s :=
  let E := fresh "E" in
  destruct (jseq e (lit s)) eqn:E;
  [apply jseq_eq in E; subst e | apply jseq_neq in E].

Ltac table_row l :=
  let H := fresh "H" in
  destruct l; vm_compute;
  (split;
   [ intros H; first [discriminate H | left; reflexivity | right; left; reflexivity]
   | intros H;
     first [ reflexivity
           | exfalso;
             repeat (destruct H as [H | H]; try discriminate H);
             try contradiction ] ]).

Ltac no_row :=
  match goal with
  | E : _ = _ -> False |- _ => apply E; reflexivity
  end.

(** The lookup finds a tag exactly when the extension is in that tag's
    table. *)
Lemma lookup_spec (e : jsstring) (l : LanguageKey) :
  option_map fst (find (fun entry => array_includes (snd entry) e)
                       SUPPORTED_LANGUAGES) = Some l
  <-> In e (extensions l).
Proof.
  unfold SUPPORTED_LANGUAGES, array_includes.
  cbn [find snd fst existsb].
  ext_case e ".js"%string; [table_row l|].
  ext_case e ".jsx"%string; [table_row l|].
  ext_case e ".ts"%string; [table_row l|].
  ext_case e ".tsx"%string; [table_row l|].
  ext_case e ".py"%string; [table_row l|].
  ext_case e ".rs"%string; [table_row l|].
  ext_case e ".java"%string; [table_row l|].
  ext_case e ".go"%string; [table_row l|].
  cbn [orb option_map]. split; [discriminate|].
  intros H. exfalso. vm_compute in E, E0, E1, E2, E3, E4, E5, E6.
  destruct l; vm_compute in H;
    repeat (destruct H as [H | H]; [subst e; no_row|]); exact H.
Qed.

(** C9 as written fails: no five tags cover what the registry resolves
    files to. *)
Lemma C9_counterexample :
  ~ (exists tags : list LanguageKey,
       length tags = 5 /\
       forall filePath_ l, getLanguageForFile filePath_ = Some l -> In l tags).
Proof.
  intros [tags [Hlen Hcover]].
  assert (Hincl : incl all_languages tags).
  { intros l Hl. unfold all_languages in Hl. simpl in Hl.
    destruct Hl as [<- | [<- | [<- | [<- | [<- | [<- | []]]]]]].
    - apply (Hcover (lit "a.js")). reflexivity.
    - apply (Hcover (lit "a.ts")). reflexivity.
    - apply (Hcover (lit "a.py")). reflexivity.
    - apply (Hcover (lit "a.rs")). reflexivity.
    - apply (Hcover (lit "A.java")). reflexivity.
    - apply (Hcover (lit "a.go")). reflexivity. }
  pose proof (NoDup_incl_length all_languages_NoDup Hincl) as H.
  rewrite Hlen in H. simpl in H. lia.
Qed.

(** C9, amended: the registry has exactly six tags, [js], [ts], [python],
    [rust], [java] and [go]; a file resolves to a tag exactly when its
    extension is, case-sensitively, in that tag's fixed table; a file
    whose extension is in no table resolves to none, and the scan skips
    it without reporting anything. *)
Theorem C9_registry :
  map fst SUPPORTED_LANGUAGES = [js; ts; python; rust; java; go] /\
  NoDup (map fst SUPPORTED_LANGUAGES) /\
  (forall l, In l (map fst SUPPORTED_LANGUAGES)) /\
  length (map fst SUPPORTED_LANGUAGES) = 6 /\
  map extensions [js; ts; python; rust; java; go] =
    [[lit ".js"; lit ".jsx"]; [lit ".ts"; lit ".tsx"]; [lit ".py"];
     [lit ".rs"]; [lit ".java"]; [lit ".go"]] /\
  (forall filePath_ l,
     getLanguageForFile filePath_ = Some l <-> In (extname filePath_) (extensions l)) /\
  (forall filePath_,
     getLanguageForFile filePath_ = None <->
     forall l, ~ In (extname filePath_) (extensions l)) /\
  getLanguageForFile (lit "src/app.PY") = None /\
  getLanguageForFile (lit "src/App.Java") = None /\
  (forall env filePath_ rest g,
     getLanguageForFile filePath_ = None ->
     scanFiles env (filePath_ :: rest) g = scanFiles env rest g).
Proof.
  split; [reflexivity|].
  split; [exact all_languages_NoDup|].
  split; [exact all_languages_complete|].
  split; [reflexivity|].
  split; [reflexivity|].
  split; [intros filePath_ l; apply lookup_spec|].
  split.
  - intros filePath_. split.
    + intros H l Hin. apply lookup_spec in Hin.
      unfold getLanguageForFile in H. congruence.
    + intros H. destruct (getLanguageForFile filePath_) as [l|] eqn:E;
        [|reflexivity].
      exfalso. apply (H l). apply lookup_spec. exact E.
  - split; [reflexivity|]. split; [reflexivity|].
    intros env filePath_ rest g H. simpl. rewrite H. reflexivity.
Qed.

Lemma C9_registry_witness :
  getLanguageForFile (lit "README.md") = None /\
  scanFiles three_files_env [lit "README.md"; one_py] empty_global
  = scanFiles three_files_env [one_py] empty_global.
Proof.
  split; [reflexivity|].
  destruct C9_registry as (_ & _ & _ & _ & _ & _ & _ & _ & _ & H).
  apply H. reflexivity.
Defined.

(* ================================================================== *)
(** * Documentation classifier *)
(* ================================================================== *)

Lemma accepts_empty (l : LanguageKey) : accepts l [] = false.
Proof. destruct l; reflexivity. Qed.

Lemma isValidDocumentation_accepts (text : jsstring) (l : LanguageKey) :
  isValidDocumentation text (Some l) =
    if accepts l text then valid (trim text) else invalid.
Proof.
  destruct text as [|c text]; simpl; [|reflexivity].
  rewrite accepts_empty. reflexivity.
Qed.

(** C3: for Go the classifier accepts exactly the comments whose trimmed
    text starts with [//], contains no [TODO], is longer than 2 and has a
    non-white-space code unit after the marker; on acceptance the cleaned
    text is the trimmed input. [// TODO: fix this] is rejected and
    [// Computes the sum of two integers.] is accepted. *)
Theorem C3_go_classifier :
  (forall text,
     isValid (isValidDocumentation text (Some go)) = true <->
     (startsWith (lit "//") (trim text) = true /\
      includes (lit "TODO") (trim text) = false /\
      2 < length (trim text) /\
      exists c, In c (substring 2 (trim text)) /\ is_ws c = false)) /\
  (forall text,
     isValidDocumentation text (Some go) = valid (trim text) \/
     isValidDocumentation text (Some go) = invalid) /\
  isValid (isValidDocumentation (lit "// TODO: fix this") (Some go)) = false /\
  isValidDocumentation (lit "// Computes the sum of two integers.") (Some go) =
    valid (trim (lit "// Computes the sum of two integers.")) /\
  trim (lit "// Computes the sum of two integers.") =
    lit "// Computes the sum of two integers.".
Proof.
  split; [|split; [|split; [reflexivity | split; reflexivity]]].
  - intros text. rewrite isValidDocumentation_accepts.
    rewrite <- trim_nonempty.
    unfold accepts.
    destruct (startsWith (lit "//") (trim text));
      destruct (includes (lit "TODO") (trim text));
      destruct (Nat.ltb_spec 2 (length (trim text)));
      destruct (Nat.ltb_spec 0 (length (trim (substring 2 (trim text)))));
      cbn [andb negb isValid valid invalid]; split; intros Hyp;
      try discriminate Hyp; try reflexivity;
      try (repeat split; (reflexivity || assumption));
      destruct Hyp as (Hs & Hi & Hl & Hc);
      try discriminate Hs; try discriminate Hi; lia.
  - intros text. rewrite isValidDocumentation_accepts.
    destruct (accepts go text); auto.
Qed.

(** C8: the classifier is a total function: whatever the text and the
    language, it returns a definite validation, either invalid or valid
    with the trimmed text; an unset language or an empty text gives
    invalid, and so does a text the language's test rejects. *)
Theorem C8_classifier_total (text : jsstring) (l : LanguageKey) :
  isValidDocumentation text None = invalid /\
  isValidDocumentation [] (Some l) = invalid /\
  isValidDocumentation [] None = invalid /\
  isValidDocumentation text (Some l) =
    (if accepts l text then valid (trim text) else invalid) /\
  (isValidDocumentation text (Some l) = invalid \/
   isValidDocumentation text (Some l) = valid (trim text)).
Proof.
  split; [reflexivity|]. split; [reflexivity|]. split; [reflexivity|].
  split; [apply isValidDocumentation_accepts|].
  rewrite isValidDocumentation_accepts. destruct (accepts l text); auto.
Qed.

(* ================================================================== *)
(** * Fallback extraction engine: hand-off *)
(* ================================================================== *)

Lemma hand_off_nil (g : Global) : hand_off [] g = g.
Proof. unfold hand_off. simpl. rewrite app_nil_r. destruct g; reflexivity. Qed.

Lemma hand_off_app (a b : list Function) (g : Global) :
  hand_off b (hand_off a g) = hand_off (a ++ b) g.
Proof.
  unfold hand_off. simpl. rewrite filter_app, map_app, app_assoc. reflexivity.
Qed.

(** Every line the upward scan collects is non-empty. *)
Lemma scanUp_nonempty (lines : list jsstring) (n : nat) :
  forall acc inside docLines,
    Forall (fun l => l <> []) acc ->
    scanUp lines n acc inside = Ok docLines ->
    Forall (fun l => l <> []) docLines.
Proof.
  induction n as [|n IH]; intros acc inside docLines Hacc; cbn [scanUp].
  - intros H; inversion H; subst; exact Hacc.
  - destruct (nth_error lines n) as [raw|]; [|discriminate].
    destruct (trim raw) as [|c line]; [apply IH; exact Hacc|].
    assert (Hne : c :: line <> []) by discriminate.
    destruct (startsWith (lit "/**") (c :: line)).
    + intros H; inversion H; subst. constructor; assumption.
    + destruct (inside || startsWith (lit "*") (c :: line)
                || startsWith (lit "*/") (c :: line));
        destruct (negb (startsWith (lit "*") (c :: line))
                  && negb (startsWith (lit "*/") (c :: line)) && negb inside);
        try (intros H; inversion H; subst; try constructor; assumption);
        apply IH; try constructor; assumption.
Qed.

Lemma join_nl_nonempty (x : jsstring) (rest : list jsstring) :
  x <> [] -> join_nl (x :: rest) <> [].
Proof.
  intros Hx. destruct x as [|c x]; [congruence|].
  destruct rest; simpl; discriminate.
Qed.

Lemma join_nl_truthy (x : jsstring) (rest : list jsstring) :
  x <> [] -> truthy_text (Some (join_nl (x :: rest))) = true.
Proof.
  intros Hx. pose proof (join_nl_nonempty rest Hx) as Hj.
  unfold truthy_text. destruct (join_nl (x :: rest)); [congruence | reflexivity].
Qed.

(** A found comment always comes with a non-empty text, and a missing
    one with none. *)
Lemma getJSDocComment_text (n : JsVal) (sourceCode_ : jsstring) r :
  getJSDocComment n sourceCode_ = Ok r ->
  (hasDoc r = true /\ truthy_text (docText r) = true) \/
  (hasDoc r = false /\ docText r = None).
Proof.
  unfold getJSDocComment.
  destruct (get "loc" n) as [l|];
    [|intros H; inversion H; subst; right; auto].
  destruct (negb (truthy l)); [intros H; inversion H; subst; right; auto|].
  destruct (loc_of n) as [[sl el]|]; [|discriminate].
  destruct (scanUp _ _ _ _) as [docLines|e] eqn:Es; [|discriminate].
  apply scanUp_nonempty in Es; [|constructor].
  destruct docLines as [|d docLines]; intros [= <-]; cbn [hasDoc docText].
  - right; auto.
  - left. split; [reflexivity|].
    inversion Es as [|? ? H2 H3]; subst.
    exact (join_nl_truthy docLines H2).
Qed.

(** What a visit does is fixed by the node: it throws, or returns
    early, or appends its records and hands the documented ones off. *)
Lemma visit_spec (sourceCode_ filePath_ : jsstring) (n : JsVal) :
  (exists e, forall fs g, visit sourceCode_ filePath_ n fs g = Throw e) \/
  (forall fs g, visit sourceCode_ filePath_ n fs g = Ok None) \/
  (exists new, forall fs g,
     visit sourceCode_ filePath_ n fs g = Ok (Some (fs ++ new, hand_off new g))).
Proof.
  unfold visit.
  destruct (is_named_function n).
  - destruct (functionName_of n) as [fname|]; [|right; left; reflexivity].
    destruct (loc_of n) as [[sl el]|]; [|left; exists TypeError; reflexivity].
    destruct (getJSDocComment n sourceCode_) as [r|e] eqn:Ed;
      [|left; exists e; reflexivity].
    right; right.
    exists [mkFunction fname (AstNode n) filePath_ (sl - 1) (el - 1)
              (join_nl (slice (split_nl sourceCode_) (sl - 1) (el - 1 + 1)))
              (hasDoc r) (docText r)].
    intros fs g. unfold hand_off. cbn [filter isDocumented].
    destruct (getJSDocComment_text _ _ Ed) as [[Hd Ht] | [Hd Ht]];
      rewrite Hd.
    + rewrite Ht. reflexivity.
    + cbn [andb map]. rewrite app_nil_r. destruct g; reflexivity.
  - right; right. exists []. intros fs g.
    rewrite app_nil_r, hand_off_nil. reflexivity.
Qed.

Lemma forEachObject_spec {A} (value : A -> JsVal) f (properties : list A) :
  Forall (fun p => exists r new, forall fs g,
            f (value p) fs g = (r, (fs ++ new, hand_off new g))) properties ->
  exists r new, forall fs g,
    forEachObject value f properties fs g = (r, (fs ++ new, hand_off new g)).
Proof.
  induction 1 as [|p rest [r [new Hp]] _ [r' [new' IH]]]; simpl.
  - exists (Ok tt), []. intros fs g. rewrite app_nil_r, hand_off_nil. reflexivity.
  - destruct (truthy (value p) && is_object (value p)).
    + destruct r as [u|e].
      * exists r', (new ++ new'). intros fs g.
        rewrite Hp, IH, hand_off_app, app_assoc. reflexivity.
      * exists (Throw e), new. intros fs g. rewrite Hp. reflexivity.
    + exists r', new'. exact IH.
Qed.

(** The walk appends records to [functions] and, for exactly the
    documented ones among them and in the same order, entries to
    [documentedFunctions]; which records depends on the tree and the
    source only. *)
Lemma traverse_spec (sourceCode_ filePath_ : jsstring) (n : JsVal) :
  exists r new, forall fs g,
    traverse sourceCode_ filePath_ n fs g = (r, (fs ++ new, hand_off new g)).
Proof.
  induction n using JsVal_nested_ind;
    try (exists (Ok tt), []; intros fs0 g; simpl;
         rewrite app_nil_r, hand_off_nil; reflexivity).
  - apply (forEachObject_spec (fun v => v)) in H. exact H.
  - apply (forEachObject_spec snd) in H. destruct H as [r [new H]].
    cbn [traverse].
    destruct (visit_spec sourceCode_ filePath_ (JObj fs))
      as [[e He] | [Hn | [new0 Hs]]].
    + exists (Throw e), []. intros fs0 g.
      rewrite He, app_nil_r, hand_off_nil. reflexivity.
    + exists (Ok tt), []. intros fs0 g.
      rewrite Hn, app_nil_r, hand_off_nil. reflexivity.
    + exists r, (new0 ++ new). intros fs0 g.
      rewrite Hs, H, hand_off_app, app_assoc. reflexivity.
Qed.

(* ================================================================== *)
(** * Retained matches and their records *)
(* ================================================================== *)

Lemma firstValidDoc_existsb docNodes language :
  is_some (firstValidDoc docNodes language)
  = existsb (doc_accepted language) docNodes.
Proof.
  induction docNodes as [|d rest IH]; simpl; [reflexivity|].
  unfold doc_accepted at 1.
  destruct (isValid (isValidDocumentation (node_text (capture_node d)) language));
    [reflexivity | exact IH].
Qed.

(** Every retained match has exactly one record. *)
Lemma retained_records filePath_ sourceCode_ (ms : list QueryMatch) :
  forall seen,
    Forall2 (fun m f => match_record filePath_ sourceCode_ m = [f])
      (retained_matches seen ms)
      (flat_map (match_record filePath_ sourceCode_) (retained_matches seen ms)).
Proof.
  induction ms as [|m ms IH]; intros seen; simpl; [constructor|].
  destruct (match_key m) as [k|] eqn:Ek; [|apply IH].
  destruct (existsb (key_eqb k) seen); [apply IH|].
  cbn [flat_map].
  pose proof (match_record_key filePath_ sourceCode_ m Ek) as Hk.
  destruct (match_record filePath_ sourceCode_ m) as [|f [|f' l]] eqn:Er;
    try discriminate Hk.
  simpl. constructor; [exact Er | apply IH].
Qed.

Lemma match_record_documented filePath_ sourceCode_ m f :
  match_record filePath_ sourceCode_ m = [f] ->
  isDocumented f
  = existsb (doc_accepted (getLanguageForFile filePath_)) (filter_captures "doc" m)
  /\ (isDocumented f = false -> cleanedDoc f = None).
Proof.
  unfold match_record.
  destruct (find_capture "function" m); [|discriminate].
  destruct (find_capture "function_name" m); [|discriminate].
  intros [= <-]. cbn [isDocumented cleanedDoc].
  rewrite firstValidDoc_existsb. split; [reflexivity|].
  rewrite <- firstValidDoc_existsb.
  destruct (firstValidDoc _ _); [discriminate | reflexivity].
Qed.



Lemma Forall2_impl {A B} (P Q : A -> B -> Prop) l l' :
  (forall a b, P a b -> Q a b) -> Forall2 P l l' -> Forall2 Q l l'.
Proof. intros H; induction 1; constructor; auto. Qed.

(** The records of a file, match by match: the record of a retained
    match is documented exactly when the classifier accepts one of the
    match's doc captures. *)
Lemma tree_records_documented ms filePath_ sourceCode_ g :
  Forall2 (fun m f =>
             isDocumented f
             = existsb (doc_accepted (getLanguageForFile filePath_))
                       (filter_captures "doc" m)
             /\ (isDocumented f = false -> cleanedDoc f = None))
    (retained_matches [] ms)
    (fst (processMatchesAndCollect ms filePath_ sourceCode_ [] g)).
Proof.
  rewrite processMatchesAndCollect_spec. cbn [fst app].
  eapply Forall2_impl; [|apply retained_records].
  intros m f H. exact (match_record_documented _ _ _ H).
Qed.

(* ================================================================== *)
(** * The claims on the two engines *)
(* ================================================================== *)

(** C1, at the input where the code departs from it: for
    [const foo = function foo() {}] the fallback engine emits two
    records with the same name and the same start line, one for the
    variable declarator and one for the named function expression. *)
Theorem C1_fallback_emits_duplicates :
  let result := processJavaScriptAST named_expression_ast named_expression_source
                  (lit "/repo/src/foo.js") [] [] empty_global in
  fst result = Ok tt /\
  map record_key (fst (snd result)) = [(lit "foo", 0%Z); (lit "foo", 0%Z)] /\
  ~ NoDup (map record_key (fst (snd result))).
Proof.
  cbn zeta. split; [reflexivity|]. split; [reflexivity|].
  intros H. vm_compute in H. inversion H as [|? ? Hin _]. apply Hin. left. reflexivity.
Qed.

(** C2 as written fails: two documented functions of one file with the
    same name leave two entries with that name and path. *)
Lemma C2_counterexample :
  let result := processMatchesAndCollect two_inits_matches (lit "/repo/shapes.py")
                  two_inits_source [] empty_global in
  ~ (forall f, In f (fst result) -> isDocumented f = true ->
       count_entries (name f) (filePath f) (documentedFunctions (snd result)) = 1).
Proof.
  cbn zeta.
  remember (processMatchesAndCollect two_inits_matches (lit "/repo/shapes.py")
              two_inits_source [] empty_global) as result eqn:E.
  vm_compute in E. subst result. intros H.
  specialize (H _ (or_introl eq_refl) eq_refl).
  vm_compute in H. discriminate H.
Qed.

(** C2, amended: each engine appends exactly one entry per emitted
    record that is documented, carrying the record's name, text and
    path, in the order the records are emitted; in the tree engine the
    emitted records are those of the retained matches, so a function
    matched by several alternatives under one name and start line has
    one record and at most one entry. *)
Theorem C2_one_entry_per_documented_record :
  (forall ms filePath_ sourceCode_ fs0 g,
     exists new,
       new = flat_map (match_record filePath_ sourceCode_) (retained_matches [] ms) /\
       NoDup (map record_key new) /\
       fst (processMatchesAndCollect ms filePath_ sourceCode_ fs0 g) = fs0 ++ new /\
       documentedFunctions (snd (processMatchesAndCollect ms filePath_ sourceCode_ fs0 g))
       = documentedFunctions g ++ map entry_of (filter isDocumented new)) /\
  (forall ast sourceCode_ filePath_ lintMessages,
     exists new, forall fs0 g,
       let result := processJavaScriptAST ast sourceCode_ filePath_ lintMessages fs0 g in
       fst (snd result) = fs0 ++ new /\
       documentedFunctions (snd (snd result))
       = documentedFunctions g ++ map entry_of (filter isDocumented new)).
Proof.
  split.
  - intros ms filePath_ sourceCode_ fs0 g. eexists. split; [reflexivity|].
    rewrite processMatchesAndCollect_spec. cbn zeta. cbn [fst snd documentedFunctions].
    split; [|split; reflexivity].
    apply (retained_NoDup filePath_ sourceCode_ ms []). constructor.
  - intros ast sourceCode_ filePath_ lintMessages.
    destruct (traverse_spec sourceCode_ filePath_ ast) as [r [new H]].
    exists new. intros fs0 g. cbn zeta. unfold processJavaScriptAST.
    rewrite H. split; reflexivity.
Qed.

(** C4 as written fails: a function whose first statement is the string
    literal ['Adds two numbers.'] is emitted undocumented. *)
Lemma C4_counterexample :
  map (fun f => (name f, isDocumented f, cleanedDoc f))
    (fst (processMatchesAndCollect single_quoted_matches (lit "/repo/calc.py")
            single_quoted_source [] empty_global))
  = [(lit "add", false, None)].
Proof. reflexivity. Qed.

(** C4, amended: in a Python file the record of a retained match is
    documented exactly when one of the captured docstrings contains the
    triple double quote or, trimmed, starts with [#]; so a function with
    a triple-quoted docstring is documented without any preceding
    comment, one with a docstring in another quoting style is not, and
    one whose match captures no docstring is undocumented. *)
Theorem C4_python_docstring ms filePath_ sourceCode_ g :
  getLanguageForFile filePath_ = Some python ->
  Forall2 (fun m f =>
             isDocumented f
             = existsb (fun d =>
                          includes triple_quote (node_text (capture_node d))
                          || startsWith (lit "#") (trim (node_text (capture_node d))))
                       (filter_captures "doc" m)
             /\ (filter_captures "doc" m = [] ->
                 isDocumented f = false /\ cleanedDoc f = None))
    (retained_matches [] ms)
    (fst (processMatchesAndCollect ms filePath_ sourceCode_ [] g)).
Proof.
  intros Hl.
  eapply Forall2_impl; [|apply tree_records_documented].
  intros m f [Hd Hc]. cbn beta in Hd, Hc. rewrite Hl in Hd.
  assert (He : forall docs,
             existsb (doc_accepted (Some python)) docs
             = existsb (fun d =>
                          includes triple_quote (node_text (capture_node d))
                          || startsWith (lit "#") (trim (node_text (capture_node d))))
                       docs).
  { induction docs as [|d docs IH]; simpl; [reflexivity|].
    rewrite IH. f_equal. unfold doc_accepted.
    rewrite isValidDocumentation_accepts. unfold accepts.
    destruct (_ || _); reflexivity. }
  rewrite He in Hd. split; [exact Hd|].
  intros Hn. rewrite Hn in Hd. simpl in Hd. auto.
Qed.

Lemma C4_python_docstring_witness :
  getLanguageForFile (lit "/repo/calc.py") = Some python /\
  Forall2 (fun m f =>
             isDocumented f
             = existsb (fun d =>
                          includes triple_quote (node_text (capture_node d))
                          || startsWith (lit "#") (trim (node_text (capture_node d))))
                       (filter_captures "doc" m)
             /\ (filter_captures "doc" m = [] ->
                 isDocumented f = false /\ cleanedDoc f = None))
    (retained_matches [] triple_quoted_matches)
    (fst (processMatchesAndCollect triple_quoted_matches (lit "/repo/calc.py")
            triple_quoted_source [] empty_global)).
Proof.
  split; [reflexivity|].
  apply (C4_python_docstring triple_quoted_matches (lit "/repo/calc.py")
           triple_quoted_source empty_global).
  reflexivity.
Defined.

(** C5, at the input where the code departs from it: above the
    function stands a plain block comment; no line begins with [/**],
    the scan stops at the line [/*], which is neither a continuation
    line nor the closer, and still the function is marked documented,
    with the two lines collected on the way as its text. *)
Theorem C5_plain_block_marked_documented :
  split_nl plain_block_source = plain_block_lines /\
  existsb (fun l => startsWith (lit "/**") (trim l)) plain_block_lines = false /\
  getJSDocComment (function_declaration "f" 4) plain_block_source
  = Ok (mkDocResult true (Some (join_nl [lit "* plain"; lit "*/"]))) /\
  map (fun f => (name f, startLine f, isDocumented f, cleanedDoc f))
    (fst (snd (processJavaScriptAST plain_block_ast plain_block_source
                 (lit "/repo/src/f.js") [] [] empty_global)))
  = [(lit "f", 3%Z, true, Some (join_nl [lit "* plain"; lit "*/"]))].
Proof. repeat split; reflexivity. Qed.

(** C6 as written fails: the text is not the three source lines joined,
    their leading blanks are gone. *)
Lemma C6_counterexample :
  map cleanedDoc
    (fst (snd (processJavaScriptAST doubles_ast doubles_source
                 (lit "/repo/src/double.js") [] [] empty_global)))
  <> [Some (join_nl [lit "/**"; lit " * Doubles x"; lit " */"])].
Proof. vm_compute. discriminate. Qed.

(** C6, amended: on the five given lines, with the function on the last
    one, the fallback engine associates the three-line block comment,
    marks the function documented and sets [cleanedDoc] to the three
    comment lines, each trimmed, joined by newlines; the entry is handed
    off once. *)
Theorem C6_upward_scan :
  let result := processJavaScriptAST doubles_ast doubles_source
                  (lit "/repo/src/double.js") [] [] empty_global in
  split_nl doubles_source = doubles_lines /\
  fst result = Ok tt /\
  map (fun f => (name f, startLine f, endLine f, isDocumented f, cleanedDoc f))
      (fst (snd result))
  = [(lit "double", 4%Z, 4%Z, true,
      Some (join_nl (map trim [lit "/**"; lit " * Doubles x"; lit " */"])))] /\
  map trim [lit "/**"; lit " * Doubles x"; lit " */"]
  = [lit "/**"; lit "* Doubles x"; lit "*/"] /\
  map sourceCode (fst (snd result)) = [lit "function double(x) { return x*2 }"] /\
  documentedFunctions (snd (snd result))
  = [mkDocumented (lit "double")
       (Some (join_nl [lit "/**"; lit "* Doubles x"; lit "*/"]))
       (lit "/repo/src/double.js")].
Proof. cbn zeta. repeat split; reflexivity. Qed.





(* ================================================================== *)
(** * Per-file isolation of failures *)
(* ================================================================== *)

(** With ESLint constructed, [processFile] always returns; its records,
    the entries and the console lines it appends do not depend on the
    state it starts from. *)
Lemma processFile_uniform (env : Env) (filePath_ : jsstring) (language : LanguageKey) :
  newESLint env = Ok tt ->
  exists fs d l, forall g,
    processFile env filePath_ language g
    = Ok (fs, mkGlobal (documentedFunctions g ++ d) (console g ++ l)).
Proof.
  intros Hes.
  assert (Hjs : exists fs d l, forall g,
             processJavaScriptFile env filePath_ g
             = Ok (fs, mkGlobal (documentedFunctions g ++ d) (console g ++ l))).
  { unfold processJavaScriptFile, tryJavaScriptFile, catch_file, console_write.
    rewrite Hes.
    destruct (readFileSync env filePath_) as [src|e];
      [|exists [], [], [LogErrorProcessing (relative env filePath_) e];
        intros g; cbn; rewrite app_nil_r; reflexivity].
    destruct (lintText env src filePath_) as [[msgs|]|e].
    - destruct (parseJavaScriptAST env src filePath_) as [ast|e].
      + unfold processJavaScriptAST.
        destruct (traverse_spec src filePath_ ast) as [r [new H]].
        destruct r as [u|e].
        * exists new, (map entry_of (filter isDocumented new)),
            [LogScanning (relative env filePath_)].
          intros g. rewrite H. reflexivity.
        * exists [], (map entry_of (filter isDocumented new)),
            [LogScanning (relative env filePath_);
             LogErrorProcessing (relative env filePath_) e].
          intros g. rewrite H. cbn. rewrite <- app_assoc. reflexivity.
      + exists [], [], [LogScanning (relative env filePath_);
                        LogErrorProcessing (relative env filePath_) e].
        intros g. cbn. rewrite app_nil_r, <- app_assoc. reflexivity.
    - exists [], [], [LogScanning (relative env filePath_)].
      intros g. cbn. rewrite app_nil_r. reflexivity.
    - exists [], [], [LogErrorProcessing (relative env filePath_) e].
      intros g. cbn. rewrite app_nil_r. reflexivity. }
  assert (Htree : forall lang, exists fs d l, forall g,
             match tryTreeFile env filePath_ lang g with
             | (Ok functions_, g') => Ok (functions_, g')
             | (Throw e, g') => Ok (catch_file env filePath_ e g')
             end
             = Ok (fs, mkGlobal (documentedFunctions g ++ d) (console g ++ l))).
  { intros lang. unfold tryTreeFile, catch_file, console_write.
    destruct (readFileSync env filePath_) as [src|e];
      [|exists [], [], [LogErrorProcessing (relative env filePath_) e];
        intros g; cbn; rewrite app_nil_r; reflexivity].
    destruct (queryMatches env lang src) as [[|m ms]|e].
    - exists [], [], []. intros g. cbn. rewrite !app_nil_r.
      destruct g; reflexivity.
    - eexists _, _, [LogScanning (relative env filePath_)]. intros g.
      rewrite processMatchesAndCollect_spec. cbn. reflexivity.
    - exists [], [], [LogErrorProcessing (relative env filePath_) e].
      intros g. cbn. rewrite app_nil_r. reflexivity. }
  destruct language; cbn [processFile]; auto.
Qed.









(* ================================================================== *)
(** * Strings: trimming, searching, splitting *)
(* ================================================================== *)

Lemma trimStart_idem (s : jsstring) : trimStart (trimStart s) = trimStart s.
Proof.
  induction s as [|c s IH]; simpl; [reflexivity|].
  destruct (is_ws c) eqn:E; [exact IH | simpl; rewrite E; reflexivity].
Qed.

Lemma trimStart_app_nonws (x : jsstring) (c : N) :
  is_ws c = false -> trimStart (x ++ [c]) = trimStart x ++ [c].
Proof.
  intros Hc. induction x as [|y x IH]; simpl.
  - rewrite Hc. reflexivity.
  - destruct (is_ws y); [exact IH | reflexivity].
Qed.

Lemma trimEnd_cons_nonws (c : N) (r : jsstring) :
  is_ws c = false -> trimEnd (c :: r) = c :: trimEnd r.
Proof.
  intros Hc. unfold trimEnd. simpl.
  rewrite (@trimStart_app_nonws (rev r) c Hc), rev_app_distr. reflexivity.
Qed.

Lemma trimEnd_idem (s : jsstring) : trimEnd (trimEnd s) = trimEnd s.
Proof.
  unfold trimEnd. rewrite rev_involutive, trimStart_idem. reflexivity.
Qed.

Lemma trimStart_fixed (s : jsstring) :
  match s with [] => True | c :: _ => is_ws c = false end -> trimStart s = s.
Proof.
  destruct s as [|c s]; simpl; [reflexivity|]. intros ->. reflexivity.
Qed.

(** A trimmed string starts with a code unit that is not white space. *)
Lemma trim_head (s : jsstring) :
  match trim s with [] => True | c :: _ => is_ws c = false end.
Proof.
  unfold trim. destruct (trimStart s) as [|c r] eqn:E; [exact I|].
  pose proof (trimStart_head s E) as Hc.
  rewrite (@trimEnd_cons_nonws c r Hc). exact Hc.
Qed.

Lemma trim_idem (s : jsstring) : trim (trim s) = trim s.
Proof.
  unfold trim at 1. rewrite (@trimStart_fixed (trim s) (trim_head s)).
  unfold trim. apply trimEnd_idem.
Qed.

Lemma trimEnd_split (s : jsstring) :
  exists w, s = trimEnd s ++ w /\ forallb is_ws w = true.
Proof.
  unfold trimEnd. destruct (trimStart_split (rev s)) as [w [Hs Hw]].
  exists (rev w). split.
  - rewrite <- (rev_involutive s), Hs at 1. rewrite rev_app_distr. reflexivity.
  - rewrite forallb_rev. exact Hw.
Qed.

(** A string is its trimmed text between two runs of white space. *)
Lemma trim_decompose (s : jsstring) :
  exists w1 w2, s = w1 ++ trim s ++ w2 /\
    forallb is_ws w1 = true /\ forallb is_ws w2 = true.
Proof.
  destruct (trimStart_split s) as [w1 [H1 Hw1]].
  destruct (trimEnd_split (trimStart s)) as [w2 [H2 Hw2]].
  exists w1, w2. unfold trim. rewrite <- H2. auto.
Qed.

Lemma startsWith_head_neq (p s : jsstring) c w :
  p = c :: s -> is_ws c = false -> is_ws w = true ->
  forall rest, startsWith p (w :: rest) = false.
Proof.
  intros -> Hc Hw rest. simpl.
  destruct (N.eqb_spec c w) as [->|]; [congruence | reflexivity].
Qed.

Lemma includes_skip_ws (p w1 x : jsstring) c p' :
  p = c :: p' -> is_ws c = false -> forallb is_ws w1 = true ->
  includes p (w1 ++ x) = includes p x.
Proof.
  intros Hp Hc. induction w1 as [|w w1 IH]; intros Hw; [reflexivity|].
  simpl in Hw. apply andb_true_iff in Hw. destruct Hw as [Hw Hw1].
  change ((w :: w1) ++ x) with (w :: (w1 ++ x)). cbn [includes].
  rewrite (@startsWith_head_neq p p' c w Hp Hc Hw). simpl. apply IH. exact Hw1.
Qed.

Lemma includes_rev (p s : jsstring) : includes (rev p) (rev s) = includes p s.
Proof.
  apply eq_true_iff_eq. rewrite !includes_spec. split.
  - intros [a [b H]]. exists (rev b), (rev a).
    apply (f_equal (@rev N)) in H. rewrite rev_involutive in H.
    rewrite H, !rev_app_distr, rev_involutive, app_assoc. reflexivity.
  - intros [a [b H]]. exists (rev b), (rev a).
    rewrite H, !rev_app_distr, app_assoc. reflexivity.
Qed.

(** Searching for a marker that begins and ends with a code unit other
    than white space gives the same answer before and after trimming. *)
Lemma includes_trim (p s : jsstring) c p' d q :
  p = c :: p' -> rev p = d :: q -> is_ws c = false -> is_ws d = false ->
  includes p (trim s) = includes p s.
Proof.
  intros Hp Hr Hc Hd.
  destruct (trim_decompose s) as [w1 [w2 [Hs [H1 H2]]]].
  rewrite Hs at 2. rewrite (@includes_skip_ws p w1 (trim s ++ w2) c p' Hp Hc H1).
  rewrite <- (includes_rev p (trim s ++ w2)), rev_app_distr.
  rewrite (@includes_skip_ws (rev p) (rev w2) (rev (trim s)) d q Hr Hd);
    [symmetry; apply includes_rev|].
  rewrite forallb_rev. exact H2.
Qed.

Lemma includes_nonws (p s : jsstring) c :
  In c p -> is_ws c = false -> includes p s = true -> trim s <> [].
Proof.
  intros Hin Hc Hi Ht. apply trim_nil in Ht. rewrite forallb_forall in Ht.
  apply includes_spec in Hi. destruct Hi as [a [b Hs]].
  assert (In c s) by (rewrite Hs, !in_app_iff; auto).
  rewrite (Ht c) in Hc; [discriminate | assumption].
Qed.

Lemma split_nl_nonempty (s : jsstring) : split_nl s <> [].
Proof.
  induction s as [|c s IH]; simpl; [discriminate|].
  destruct (c =? 10)%N; [discriminate|].
  destruct (split_nl s); [congruence | discriminate].
Qed.

Lemma split_nl_lines (s : jsstring) : Forall no_newline (split_nl s).
Proof.
  induction s as [|c s IH]; simpl.
  - constructor; [intros [] | constructor].
  - destruct (N.eqb_spec c 10).
    + constructor; [intros [] | exact IH].
    + destruct (split_nl s) as [|h r].
      * constructor; [intros [H | []]; congruence | constructor].
      * inversion IH; subst. constructor; [|assumption].
        intros [H | H]; [congruence | contradiction].
Qed.

(** [s.split("\n").join("\n")] is [s]. *)
Lemma join_split (s : jsstring) : join_nl (split_nl s) = s.
Proof.
  induction s as [|c s IH]; simpl; [reflexivity|].
  destruct (c =? 10)%N eqn:E.
  - apply N.eqb_eq in E. subst.
    pose proof (split_nl_nonempty s) as Hn.
    destruct (split_nl s) as [|h r]; [congruence|].
    cbn [join_nl app]. f_equal. exact IH.
  - pose proof (split_nl_nonempty s) as Hn.
    destruct (split_nl s) as [|h r]; [congruence|].
    rewrite <- IH. destruct r; reflexivity.
Qed.

Lemma split_nl_app_line (l : jsstring) (s : jsstring) :
  no_newline l -> split_nl (l ++ 10%N :: s) = l :: split_nl s.
Proof.
  induction l as [|c l IH]; intros Hl; simpl; [reflexivity|].
  destruct (N.eqb_spec c 10) as [->|]; [exfalso; apply Hl; left; reflexivity|].
  rewrite IH; [reflexivity|]. intros H. apply Hl. right. exact H.
Qed.

Lemma split_nl_line (l : jsstring) : no_newline l -> split_nl l = [l].
Proof.
  induction l as [|c l IH]; intros Hl; simpl; [reflexivity|].
  destruct (N.eqb_spec c 10) as [->|]; [exfalso; apply Hl; left; reflexivity|].
  rewrite IH; [reflexivity|]. intros H. apply Hl. right. exact H.
Qed.

(** [ls.join("\n").split("\n")] is [ls] for a non-empty list of lines. *)
Lemma split_join (ls : list jsstring) :
  ls <> [] -> Forall no_newline ls -> split_nl (join_nl ls) = ls.
Proof.
  induction ls as [|l ls IH]; intros Hn Hf; [congruence|].
  inversion Hf as [|? ? Hl Hls]; subst.
  destruct ls as [|l2 ls].
  - simpl. apply split_nl_line. exact Hl.
  - change (join_nl (l :: l2 :: ls)) with (l ++ 10%N :: join_nl (l2 :: ls)).
    rewrite (@split_nl_app_line l (join_nl (l2 :: ls)) Hl), IH;
      [reflexivity | discriminate | exact Hls].
Qed.

(* ================================================================== *)
(** * Documentation classifier: cleaning and the per-language tests *)
(* ================================================================== *)

Lemma accepts_trim (l : LanguageKey) (t : jsstring) :
  accepts l (trim t) = accepts l t.
Proof.
  unfold accepts. rewrite trim_idem.
  destruct l; try reflexivity.
  - rewrite (@includes_trim triple_quote t 34%N [34; 34]%N 34%N [34; 34]%N
               eq_refl eq_refl eq_refl eq_refl).
    reflexivity.
  - rewrite (@includes_trim (lit "///") t 47%N [47; 47]%N 47%N [47; 47]%N
               eq_refl eq_refl eq_refl eq_refl).
    rewrite (@includes_trim (lit "//!") t 47%N [47; 33]%N 33%N [47; 47]%N
               eq_refl eq_refl eq_refl eq_refl).
    rewrite (@includes_trim (lit "/*") t 47%N [42]%N 42%N [47]%N
               eq_refl eq_refl eq_refl eq_refl).
    rewrite (@includes_trim (lit "*/") t 42%N [47]%N 47%N [42]%N
               eq_refl eq_refl eq_refl eq_refl).
    reflexivity.
Qed.

(** The verdict on a comment and on its cleaned (trimmed) text is the
    same, cleaned text included: cleaning a second time changes
    nothing. *)
Theorem classification_stable_under_cleaning (t : jsstring)
    (language : option LanguageKey) :
  isValidDocumentation (trim t) language = isValidDocumentation t language.
Proof.
  destruct language as [l|]; [|reflexivity].
  rewrite !isValidDocumentation_accepts, accepts_trim, trim_idem. reflexivity.
Qed.

Lemma accepts_nonblank (l : LanguageKey) (t : jsstring) :
  accepts l t = true -> trim t <> [].
Proof.
  unfold accepts. intros H Ht.
  assert (Hi : forall p c, In c p -> is_ws c = false -> includes p t = false).
  { intros p c Hin Hc. destruct (includes p t) eqn:E; [|reflexivity].
    exfalso. exact (@includes_nonws p t c Hin Hc E Ht). }
  rewrite Ht in H.
  rewrite ?(Hi triple_quote 34%N (or_introl eq_refl) eq_refl),
          ?(Hi (lit "///") 47%N (or_introl eq_refl) eq_refl),
          ?(Hi (lit "//!") 47%N (or_introl eq_refl) eq_refl),
          ?(Hi (lit "/*") 47%N (or_introl eq_refl) eq_refl) in H.
  destruct l; cbn in H; discriminate H.
Qed.

(** What the classifier accepts is never empty and carries no white
    space at either end; it is the trimmed input and is accepted again
    as it stands. *)
Theorem accepted_documentation_is_clean (t d : jsstring)
    (language : option LanguageKey) :
  isValidDocumentation t language = valid d ->
  d = trim t /\ d <> [] /\ trim d = d /\
  isValidDocumentation d language = valid d.
Proof.
  destruct language as [l|]; [|discriminate].
  rewrite isValidDocumentation_accepts.
  destruct (accepts l t) eqn:Ea; [|discriminate].
  intros [= <-].
  split; [reflexivity|]. split; [exact (accepts_nonblank l t Ea)|].
  split; [apply trim_idem|].
  rewrite classification_stable_under_cleaning, isValidDocumentation_accepts, Ea.
  reflexivity.
Qed.

Lemma accepted_documentation_is_clean_witness :
  isValidDocumentation (lit "  /** Adds. */  ") (Some ts) = valid (lit "/** Adds. */") /\
  (lit "/** Adds. */" = trim (lit "  /** Adds. */  ") /\
   lit "/** Adds. */" <> [] /\
   trim (lit "/** Adds. */") = lit "/** Adds. */" /\
   isValidDocumentation (lit "/** Adds. */") (Some ts) = valid (lit "/** Adds. */")).
Proof.
  split; [reflexivity|].
  apply (@accepted_documentation_is_clean (lit "  /** Adds. */  ")
           (lit "/** Adds. */") (Some ts)).
  reflexivity.
Defined.

Lemma startsWith_app (p q s : jsstring) :
  startsWith (p ++ q) s = true -> startsWith p s = true.
Proof.
  rewrite !startsWith_spec. intros [t ->]. exists (q ++ t).
  rewrite app_assoc. reflexivity.
Qed.

Lemma slashes_not_block (s : jsstring) :
  startsWith (lit "//") s = true -> startsWith (lit "/*") s = false.
Proof.
  intros H. destruct (startsWith (lit "/*") s) eqn:E; [|reflexivity].
  apply startsWith_spec in H, E. destruct H as [t1 ->], E as [t2 E].
  cbv in E. congruence.
Qed.

(** For JavaScript and TypeScript the test for a doc block adds nothing
    to the test for a plain block comment: a comment is accepted exactly
    when its trimmed text starts with the block opener and ends with the
    block closer. For Java, likewise, it is accepted exactly when the
    trimmed text starts with the block opener or with two slashes. A
    text that starts with two slashes never starts with the block
    opener, so JavaScript line comments are rejected. *)
Theorem block_comment_tests (t : jsstring) :
  isValid (isValidDocumentation t (Some js))
  = startsWith (lit "/*") (trim t) && endsWith (lit "*/") (trim t) /\
  isValid (isValidDocumentation t (Some ts))
  = startsWith (lit "/*") (trim t) && endsWith (lit "*/") (trim t) /\
  isValid (isValidDocumentation t (Some java))
  = startsWith (lit "/*") (trim t) || startsWith (lit "//") (trim t) /\
  startsWith (lit "//") (trim t) && startsWith (lit "/*") (trim t) = false.
Proof.
  rewrite !isValidDocumentation_accepts. unfold accepts.
  assert (Hd : startsWith (lit "/**") (trim t) = true ->
               startsWith (lit "/*") (trim t) = true)
    by (apply (@startsWith_app (lit "/*") (lit "*"))).
  pose proof (slashes_not_block (trim t)) as Hs.
  destruct (startsWith (lit "/**") (trim t));
    destruct (startsWith (lit "/*") (trim t));
    destruct (endsWith (lit "*/") (trim t));
    destruct (startsWith (lit "//") (trim t));
    repeat split; try reflexivity;
    first [discriminate (Hs eq_refl) | discriminate (Hd eq_refl)].
Qed.

(* ================================================================== *)
(** * Tree extraction engine: keys, order of matches, records *)
(* ================================================================== *)

(** The string stored in the processed set stands for one pair only:
    two keys are equal exactly when the names and the rows are, whatever
    hyphens or digits a name holds. *)
Theorem processed_key_identifies_function (n1 n2 : jsstring) (r1 r2 : N) :
  funcKey n1 r1 = funcKey n2 r2 <-> n1 = n2 /\ r1 = r2.
Proof.
  split; [apply funcKey_inj | intros [-> ->]; reflexivity].
Qed.

Lemma record_keys_of_matches filePath_ sourceCode_ (l : list QueryMatch) :
  map record_key (flat_map (match_record filePath_ sourceCode_) l)
  = flat_map (fun m => match match_key m with
                       | Some k => [key_Z k]
                       | None => []
                       end) l.
Proof.
  induction l as [|m l IH]; simpl; [reflexivity|].
  rewrite map_app, IH. f_equal.
  destruct (match_key m) as [k|] eqn:Ek.
  - apply match_record_key. exact Ek.
  - rewrite (match_record_nokey _ _ _ Ek). reflexivity.
Qed.

Lemma retained_keys (ms : list QueryMatch) :
  forall seen k,
    (exists m, In m (retained_matches seen ms) /\ match_key m = Some k) <->
    (exists m, In m ms /\ match_key m = Some k) /\ ~ In k seen.
Proof.
  induction ms as [|x ms IH]; intros seen k; simpl.
  - split; [intros [m [[] _]] | intros [[m [[] _]] _]].
  - destruct (match_key x) as [kx|] eqn:Ex.
    + destruct (existsb (key_eqb kx) seen) eqn:Es.
      * rewrite IH. apply existsb_key_In in Es. split.
        -- intros [[m [Hm Hk]] Hn].
           split; [exists m; split; [right; exact Hm | exact Hk] | exact Hn].
        -- intros [[m [[<- | Hm] Hk]] Hn].
           ++ exfalso. apply Hn. congruence.
           ++ split; [exists m; auto | exact Hn].
      * assert (Hkx : ~ In kx seen)
          by (intros Hin; apply existsb_key_In in Hin; congruence).
        split.
        -- intros [m [[<- | Hm] Hk]].
           ++ split; [exists x; split; [left; reflexivity | exact Hk] | congruence].
           ++ destruct (proj1 (IH (seen ++ [kx]) k)) as [[m' [Hm' Hk']] Hn];
                [exists m; auto|].
              split; [exists m'; split; [right; exact Hm' | exact Hk']|].
              intros Hin. apply Hn. apply in_or_app. left. exact Hin.
        -- intros [[m [Hm Hk]] Hn].
           destruct (key_eqb k kx) eqn:Ekk.
           ++ apply key_eqb_eq in Ekk. subst kx. exists x.
              split; [left; reflexivity | exact Ex].
           ++ assert (Hne : k <> kx)
                by (intros ->; rewrite (proj2 (key_eqb_eq kx kx) eq_refl) in Ekk;
                    discriminate).
              destruct (proj2 (IH (seen ++ [kx]) k)) as [m' [Hm' Hk']].
              { split.
                - destruct Hm as [<- | Hm]; [congruence | exists m; auto].
                - rewrite in_app_iff. intros [H | [H | []]]; auto. }
              exists m'. split; [right; exact Hm' | exact Hk'].
    + rewrite IH. split.
      * intros [[m [Hm Hk]] Hn].
        split; [exists m; split; [right; exact Hm | exact Hk] | exact Hn].
      * intros [[m [[<- | Hm] Hk]] Hn]; [congruence|].
        split; [exists m; auto | exact Hn].
Qed.

(** Every function the query matched with both captures is emitted
    exactly once: no two records of a file share [(name, startLine)],
    and the keys of the records are exactly the keys of the matches. *)
Theorem tree_engine_each_function_once (ms : list QueryMatch)
    (filePath_ sourceCode_ : jsstring) (g : Global) :
  let records := fst (processMatchesAndCollect ms filePath_ sourceCode_ [] g) in
  NoDup (map record_key records) /\
  forall n r,
    In (n, Z.of_N r) (map record_key records) <->
    exists m, In m ms /\ match_key m = Some (n, r).
Proof.
  cbn zeta. split; [apply processMatchesAndCollect_NoDup|].
  intros n r. rewrite processMatchesAndCollect_spec. cbn [fst app].
  rewrite record_keys_of_matches, in_flat_map.
  change (n, Z.of_N r) with (key_Z (n, r)).
  split.
  - intros [m [Hm Hin]]. destruct (match_key m) as [k|] eqn:Ek; [|contradiction].
    destruct Hin as [Hk | []]. apply key_Z_inj in Hk. subst k.
    destruct (proj1 (retained_keys ms [] (n, r))) as [H _]; [exists m; auto|].
    exact H.
  - intros H. destruct (proj2 (retained_keys ms [] (n, r))) as [m [Hm Hk]];
      [split; [exact H | intros []]|].
    exists m. split; [exact Hm|]. rewrite Hk. left. reflexivity.
Qed.

Lemma retained_other_keys (k : jsstring * N) (ms : list QueryMatch) :
  forall s1 s2,
    (forall x, In x s1 <-> In x s2 \/ x = k) ->
    retained_matches s1 ms = retained_matches s2 (other_keys k ms).
Proof.
  induction ms as [|m ms IH]; intros s1 s2 Hs; [reflexivity|].
  cbn [retained_matches other_keys filter].
  destruct (match_key m) as [km|] eqn:Em.
  - destruct (key_eqb km k) eqn:Ek; cbn [negb].
    + apply key_eqb_eq in Ek. subst km.
      assert (H1 : existsb (key_eqb k) s1 = true)
        by (apply existsb_key_In, Hs; right; reflexivity).
      rewrite H1. apply IH. exact Hs.
    + assert (Hne : km <> k)
        by (intros ->; rewrite (proj2 (key_eqb_eq k k) eq_refl) in Ek; discriminate).
      cbn [retained_matches]. rewrite Em.
      assert (He : existsb (key_eqb km) s1 = existsb (key_eqb km) s2).
      { apply eq_true_iff_eq. rewrite !existsb_key_In, Hs. tauto. }
      rewrite He. destruct (existsb (key_eqb km) s2); [apply IH; exact Hs|].
      f_equal. apply IH. intros x. rewrite !in_app_iff, Hs. tauto.
  - cbn [retained_matches]. rewrite Em. apply IH. exact Hs.
Qed.

(** The first match of a function decides its record: the records of
    [m :: ms] are the record of [m] followed by the records of the
    matches in [ms] that have another key, so a later match with the
    same name and row, documented or not, changes nothing. *)
Theorem first_match_decides (m : QueryMatch) (ms : list QueryMatch)
    (k : jsstring * N) (filePath_ sourceCode_ : jsstring) (g : Global) :
  match_key m = Some k ->
  fst (processMatchesAndCollect (m :: ms) filePath_ sourceCode_ [] g)
  = match_record filePath_ sourceCode_ m
    ++ fst (processMatchesAndCollect (other_keys k ms) filePath_ sourceCode_ [] g).
Proof.
  intros Hk. rewrite !processMatchesAndCollect_spec. cbn [fst app].
  cbn [retained_matches]. rewrite Hk. cbn [existsb flat_map]. f_equal.
  rewrite (@retained_other_keys k ms ([] ++ [k]) []); [reflexivity|].
  intros x. simpl. intuition.
Qed.

Lemma first_match_decides_witness :
  match_key (add_match None) = Some (lit "add", 0%N) /\
  fst (processMatchesAndCollect
         (add_match None :: [add_match (Some (docstring "Adds two numbers."))])
         (lit "/repo/calc.py") triple_quoted_source [] empty_global)
  = match_record (lit "/repo/calc.py") triple_quoted_source (add_match None)
    ++ fst (processMatchesAndCollect
              (other_keys (lit "add", 0%N)
                 [add_match (Some (docstring "Adds two numbers."))])
              (lit "/repo/calc.py") triple_quoted_source [] empty_global).
Proof.
  split; [reflexivity|].
  apply (@first_match_decides (add_match None)
           [add_match (Some (docstring "Adds two numbers."))]
           (lit "add", 0%N) (lit "/repo/calc.py") triple_quoted_source
           empty_global).
  reflexivity.
Defined.



(* ================================================================== *)
(** * Records of both engines *)
(* ================================================================== *)

Lemma firstValidDoc_some docNodes language v :
  firstValidDoc docNodes language = Some v ->
  exists d, In d docNodes /\
    v = isValidDocumentation (node_text (capture_node d)) language /\
    isValid v = true.
Proof.
  induction docNodes as [|d rest IH]; simpl; [discriminate|].
  destruct (isValid (isValidDocumentation (node_text (capture_node d)) language))
    eqn:E.
  - intros [= <-]. exists d. auto.
  - intros H. destruct (IH H) as [d' [Hin Hd]]. exists d'. auto.
Qed.

Lemma valid_verdict (t : jsstring) (language : option LanguageKey) :
  isValid (isValidDocumentation t language) = true ->
  doc (isValidDocumentation t language) = Some (trim t) /\ trim t <> [].
Proof.
  destruct language as [l|]; [|discriminate].
  rewrite isValidDocumentation_accepts.
  destruct (accepts l t) eqn:Ea; [|discriminate].
  intros _. split; [reflexivity | exact (accepts_nonblank l t Ea)].
Qed.

Lemma match_record_shape filePath_ sourceCode_ m :
  Forall (record_shape sourceCode_ filePath_)
         (match_record filePath_ sourceCode_ m).
Proof.
  unfold match_record.
  destruct (find_capture "function" m) as [fn|]; [|constructor].
  destruct (find_capture "function_name" m) as [nm|]; constructor; [|constructor].
  unfold record_shape, record_consistent.
  cbn [filePath isDocumented cleanedDoc sourceCode startLine endLine].
  split; [|reflexivity]. split; [reflexivity|].
  destruct (firstValidDoc _ _) as [v|] eqn:Ev.
  - destruct (firstValidDoc_some _ _ Ev) as [d [_ [-> Hv]]].
    destruct (valid_verdict _ _ Hv) as [Hd Hn]. rewrite Hd.
    split; [reflexivity|]. intros d' [= <-]. exact Hn.
  - split; [reflexivity | discriminate].
Qed.

Lemma tree_records_shape ms filePath_ sourceCode_ g :
  Forall (record_shape sourceCode_ filePath_)
         (fst (processMatchesAndCollect ms filePath_ sourceCode_ [] g)).
Proof.
  rewrite processMatchesAndCollect_spec. cbn [fst app].
  induction (retained_matches [] ms) as [|m l IH]; simpl; [constructor|].
  apply Forall_app. split; [apply match_record_shape | exact IH].
Qed.

Lemma name_of_nonempty k n s : name_of k n = Some s -> s <> [].
Proof.
  unfold name_of. destruct (get k n) as [child|]; [|discriminate].
  destruct (get "name" child) as [[| | |[|c r]| | |]|]; try discriminate.
  intros [= <-]. discriminate.
Qed.

Lemma functionName_of_nonempty n s : functionName_of n = Some s -> s <> [].
Proof.
  unfold functionName_of.
  destruct (name_of "id" n) as [a|] eqn:Ea.
  - intros [= <-]. exact (name_of_nonempty _ _ Ea).
  - destruct (name_of "key" n) as [b|] eqn:Eb.
    + intros [= <-]. exact (name_of_nonempty _ _ Eb).
    + destruct (get "init" n) as [i|]; [destruct (truthy i)|]; discriminate.
Qed.

Lemma named_function_has_name n :
  is_named_function n = true -> functionName_of n <> None.
Proof.
  unfold is_named_function, functionName_of.
  destruct (name_of "id" n); [discriminate|].
  destruct (name_of "key" n); [discriminate|].
  cbn [is_some]. rewrite !andb_false_r. simpl. discriminate.
Qed.

(** The walk keeps every relation on states that is reflexive,
    transitive and kept by the visit of a node. *)
Lemma traverse_invariant (sourceCode_ filePath_ : jsstring)
    (R : list Function * Global -> list Function * Global -> Prop) :
  (forall st, R st st) ->
  (forall a b c, R a b -> R b c -> R a c) ->
  (forall n fs g fs' g',
     visit sourceCode_ filePath_ n fs g = Ok (Some (fs', g')) ->
     R (fs, g) (fs', g')) ->
  forall n fs g, R (fs, g) (snd (traverse sourceCode_ filePath_ n fs g)).
Proof.
  intros Hrefl Htrans Hvisit.
  assert (Hloop : forall A (value : A -> JsVal) (properties : list A),
            Forall (fun p => forall fs g,
                      R (fs, g)
                        (snd (traverse sourceCode_ filePath_ (value p) fs g)))
                   properties ->
            forall fs g,
              R (fs, g)
                (snd (forEachObject value (traverse sourceCode_ filePath_)
                        properties fs g))).
  { intros A value properties HF.
    induction HF as [|p rest Hp _ IH]; intros fs g; simpl; [apply Hrefl|].
    destruct (truthy (value p) && is_object (value p)); [|apply IH].
    specialize (Hp fs g).
    destruct (traverse sourceCode_ filePath_ (value p) fs g) as [[u|e] [fs' g']];
      cbn [snd] in Hp |- *; [|exact Hp].
    eapply Htrans; [exact Hp | apply IH]. }
  induction n using JsVal_nested_ind; intros fs0 g; try apply Hrefl.
  - apply (Hloop JsVal (fun v => v)). exact H.
  - cbn [traverse].
    destruct (visit sourceCode_ filePath_ (JObj fs) fs0 g) as [[[fs1 g1]|]|e] eqn:Ev;
      try apply Hrefl.
    eapply Htrans; [exact (Hvisit _ _ _ _ _ Ev)|].
    apply (Hloop (jsstring * JsVal)%type snd). exact H.
Qed.

Lemma visit_record_shape sourceCode_ filePath_ n fs g fs' g' :
  visit sourceCode_ filePath_ n fs g = Ok (Some (fs', g')) ->
  exists new, fs' = fs ++ new /\
    Forall (fun f => record_shape sourceCode_ filePath_ f /\ name f <> []) new.
Proof.
  unfold visit. destruct (is_named_function n).
  - destruct (functionName_of n) as [fname|] eqn:En; [|discriminate].
    destruct (loc_of n) as [[sl el]|]; [|discriminate].
    destruct (getJSDocComment n sourceCode_) as [r|e] eqn:Ed; [|discriminate].
    intros [= <- _]. eexists. split; [reflexivity|].
    constructor; [|constructor].
    unfold record_shape, record_consistent.
    cbn [filePath isDocumented cleanedDoc sourceCode startLine endLine name].
    split; [|exact (functionName_of_nonempty _ En)].
    split; [|reflexivity]. split; [reflexivity|].
    destruct (getJSDocComment_text _ _ Ed) as [[Hd Ht] | [Hd Ht]]; rewrite Hd.
    + destruct (docText r) as [[|c t]|]; try discriminate Ht.
      split; [reflexivity|]. intros d [= <-]. discriminate.
    + rewrite Ht. split; [reflexivity | discriminate].
  - intros [= <- _]. exists []. rewrite app_nil_r. split; [reflexivity | constructor].
Qed.

Lemma fallback_records_shape ast sourceCode_ filePath_ lintMessages fs0 g :
  exists new,
    fst (snd (processJavaScriptAST ast sourceCode_ filePath_ lintMessages fs0 g))
    = fs0 ++ new /\
    Forall (fun f => record_shape sourceCode_ filePath_ f /\ name f <> []) new.
Proof.
  unfold processJavaScriptAST.
  apply (@traverse_invariant sourceCode_ filePath_
           (fun st st' => exists new, fst st' = fst st ++ new /\
              Forall (fun f => record_shape sourceCode_ filePath_ f /\ name f <> [])
                     new)).
  - intros st. exists []. rewrite app_nil_r. split; [reflexivity | constructor].
  - intros a b c [n1 [H1 F1]] [n2 [H2 F2]]. exists (n1 ++ n2).
    rewrite H2, H1, app_assoc. split; [reflexivity|].
    apply Forall_app. auto.
  - intros n fs1 g1 fs' g' Hv. cbn [fst].
    exact (visit_record_shape _ _ _ _ _ Hv).
Qed.

(** Both engines emit consistent records: each carries the path of the
    file it was found in, is documented exactly when it has a cleaned
    text, and that text is never empty; the fallback engine moreover
    never emits a record with an empty name. *)
Theorem records_consistent (filePath_ sourceCode_ : jsstring) (g : Global) :
  (forall ms,
     Forall (record_consistent filePath_)
            (fst (processMatchesAndCollect ms filePath_ sourceCode_ [] g))) /\
  (forall ast lintMessages,
     Forall (fun f => record_consistent filePath_ f /\ name f <> [])
            (fst (snd (processJavaScriptAST ast sourceCode_ filePath_
                         lintMessages [] g)))).
Proof.
  split.
  - intros ms. eapply Forall_impl; [|apply tree_records_shape].
    intros f [H _]. exact H.
  - intros ast lintMessages.
    destruct (fallback_records_shape ast sourceCode_ filePath_ lintMessages [] g)
      as [new [-> HF]].
    cbn [app]. eapply Forall_impl; [|exact HF].
    intros f [[H _] Hn]. auto.
Qed.

(** The guard [if (!functionName) return] of the walk never fires: a
    node that passes the test for named functions always has a name, so
    its children are always visited. *)
Theorem unnamed_return_unreachable (sourceCode_ filePath_ : jsstring)
    (n : JsVal) (fs : list Function) (g : Global) :
  visit sourceCode_ filePath_ n fs g <> Ok None.
Proof.
  unfold visit. destruct (is_named_function n) eqn:En; [|discriminate].
  pose proof (named_function_has_name n En) as Hn.
  destruct (functionName_of n); [|congruence].
  destruct (loc_of n) as [[sl el]|]; [|discriminate].
  destruct (getJSDocComment n sourceCode_); discriminate.
Qed.

(* ================================================================== *)
(** * Source text of a record *)
(* ================================================================== *)

Lemma slice_in_range {A} (l : list A) (a b : Z) :
  (0 <= a <= b)%Z -> (b < Z.of_nat (length l))%Z ->
  slice l a (b + 1) = firstn (Z.to_nat (b - a + 1)) (skipn (Z.to_nat a) l).
Proof.
  intros H1 H2. unfold slice, slice_index.
  destruct (Z.ltb_spec a 0); [lia|].
  destruct (Z.ltb_spec (b + 1) 0); [lia|].
  rewrite (Z.min_l a) by lia. rewrite (Z.min_l (b + 1)) by lia.
  f_equal. lia.
Qed.

Lemma slice_past_end {A} (l : list A) (a b : Z) :
  (Z.of_nat (length l) <= a)%Z -> slice l a b = [].
Proof.
  intros H. unfold slice, slice_index.
  destruct (Z.ltb_spec a 0); [lia|].
  rewrite (Z.min_r a) by lia. rewrite Nat2Z.id, skipn_all. apply firstn_nil.
Qed.

Lemma Forall_firstn {A} (P : A -> Prop) n (l : list A) :
  Forall P l -> Forall P (firstn n l).
Proof.
  intros H. revert n. induction H; intros [|n]; simpl; constructor; auto.
Qed.

Lemma Forall_skipn {A} (P : A -> Prop) n (l : list A) :
  Forall P l -> Forall P (skipn n l).
Proof.
  intros H. revert n. induction H; intros [|n]; simpl; auto.
Qed.

Lemma line_range (sourceCode_ : jsstring) (a b : Z) :
  (0 <= a <= b)%Z -> (b < Z.of_nat (length (split_nl sourceCode_)))%Z ->
  split_nl (join_nl (slice (split_nl sourceCode_) a (b + 1)))
  = firstn (Z.to_nat (b - a + 1)) (skipn (Z.to_nat a) (split_nl sourceCode_)).
Proof.
  intros H1 H2. rewrite (slice_in_range _ H1 H2).
  apply split_join.
  - intros E. apply (f_equal (@length jsstring)) in E.
    rewrite length_firstn, length_skipn in E. simpl in E. lia.
  - apply Forall_firstn, Forall_skipn, split_nl_lines.
Qed.

(** The source text of a record of the tree engine is made of the lines
    [startLine .. endLine] of the file and of nothing else: split again,
    it gives back exactly these lines when the span lies inside the
    file; it is empty when the span starts past the last line; and it is
    the whole file when the span covers every line. *)
Theorem sourceCode_is_line_range (ms : list QueryMatch)
    (filePath_ sourceCode_ : jsstring) (g : Global) :
  let lines := split_nl sourceCode_ in
  Forall (fun f =>
            ((0 <= startLine f <= endLine f)%Z /\
             (endLine f < Z.of_nat (length lines))%Z ->
             split_nl (sourceCode f)
             = firstn (Z.to_nat (endLine f - startLine f + 1))
                      (skipn (Z.to_nat (startLine f)) lines)) /\
            ((Z.of_nat (length lines) <= startLine f)%Z -> sourceCode f = []) /\
            (startLine f = 0%Z /\ endLine f = (Z.of_nat (length lines) - 1)%Z ->
             sourceCode f = sourceCode_))
         (fst (processMatchesAndCollect ms filePath_ sourceCode_ [] g)).
Proof.
  cbn zeta. eapply Forall_impl; [|apply tree_records_shape].
  intros f [_ Hs]. rewrite Hs. split; [|split].
  - intros [H1 H2]. apply line_range; assumption.
  - intros H. rewrite slice_past_end by exact H. reflexivity.
  - intros [H0 He]. rewrite H0, He.
    pose proof (split_nl_nonempty sourceCode_) as Hn.
    assert (Hl : (0 < Z.of_nat (length (split_nl sourceCode_)))%Z).
    { destruct (split_nl sourceCode_); [congruence | simpl; lia]. }
    rewrite slice_in_range by lia.
    replace (Z.to_nat (Z.of_nat (length (split_nl sourceCode_)) - 1 - 0 + 1))
      with (length (split_nl sourceCode_)) by lia.
    simpl skipn. rewrite firstn_all. apply join_split.
Qed.

(* ================================================================== *)
(** * Fallback extraction engine: the upward scan *)
(* ================================================================== *)

Lemma star_not_opener (t : jsstring) :
  startsWith (lit "*") t = true -> startsWith (lit "/**") t = false.
Proof.
  intros H. destruct (startsWith (lit "/**") t) eqn:E; [|reflexivity].
  apply startsWith_spec in H, E. destruct H as [t1 ->], E as [t2 E].
  cbv in E. congruence.
Qed.

Lemma closer_is_star (t : jsstring) :
  startsWith (lit "*/") t = true -> startsWith (lit "*") t = true.
Proof. apply (@startsWith_app (lit "*") (lit "/")). Qed.

Lemma startsWith_nonempty (p t : jsstring) c p' :
  p = c :: p' -> startsWith p t = true -> t <> [].
Proof. intros -> H ->. discriminate H. Qed.

Lemma nth_error_middle {A} (a : list A) x b : nth_error (a ++ x :: b) (length a) = Some x.
Proof. induction a; simpl; auto. Qed.

(** Blank lines are stepped over. *)
Lemma scanUp_blanks (pre blanks rest : list jsstring) acc inside :
  Forall (fun b => trim b = []) blanks ->
  scanUp (pre ++ blanks ++ rest) (length pre + length blanks) acc inside
  = scanUp (pre ++ blanks ++ rest) (length pre) acc inside.
Proof.
  revert rest. induction blanks as [|b blanks IH] using rev_ind; intros rest HF.
  - simpl. rewrite Nat.add_0_r. reflexivity.
  - apply Forall_app in HF. destruct HF as [HF Hb]. inversion Hb; subst.
    rewrite <- app_assoc. cbn [app].
    rewrite length_app. cbn [length].
    replace (length pre + (length blanks + 1)) with (S (length pre + length blanks)) by lia.
    cbn [scanUp].
    replace (pre ++ blanks ++ b :: rest) with ((pre ++ blanks) ++ b :: rest)
      by (rewrite <- app_assoc; reflexivity).
    rewrite <- length_app, nth_error_middle, H1.
    rewrite length_app, <- app_assoc. apply IH. exact HF.
Qed.

(** Inside the file the scan returns, and keeps what it had collected. *)
Lemma scanUp_in_range (lines : list jsstring) (n : nat) :
  n <= length lines ->
  forall acc, exists more, scanUp lines n acc false = Ok (more ++ acc).
Proof.
  induction n as [|n IH]; intros Hn acc; cbn [scanUp].
  - exists []. reflexivity.
  - destruct (nth_error lines n) as [raw|] eqn:E;
      [|apply nth_error_None in E; lia].
    destruct (trim raw) as [|c line]; [apply IH; lia|].
    destruct (startsWith (lit "/**") (c :: line)); [exists [c :: line]; reflexivity|].
    destruct (false || startsWith (lit "*") (c :: line)
              || startsWith (lit "*/") (c :: line));
      destruct (negb (startsWith (lit "*") (c :: line))
                && negb (startsWith (lit "*/") (c :: line)) && negb false);
      cbv beta iota zeta.
    + exists [c :: line]. reflexivity.
    + destruct (IH ltac:(lia) ((c :: line) :: acc)) as [more H].
      exists (more ++ [c :: line]). etransitivity; [exact H|].
      f_equal. rewrite <- app_assoc. reflexivity.
    + exists []. reflexivity.
    + apply IH. lia.
Qed.

(** A doc block above the function: the opener, then lines that are
    blank or start with a star. *)
Lemma scanUp_block (above rest : list jsstring) (opener : jsstring)
    (body : list jsstring) :
  startsWith (lit "/**") (trim opener) = true ->
  Forall (fun b => trim b = [] \/ startsWith (lit "*") (trim b) = true) body ->
  forall acc,
    scanUp (above ++ opener :: body ++ rest) (length above + 1 + length body)
           acc false
    = Ok (trim opener :: filter nonblank (map trim body) ++ acc).
Proof.
  intros Ho. revert rest.
  induction body as [|b body IH] using rev_ind; intros rest HF acc.
  - cbn [app length map filter]. rewrite Nat.add_0_r, Nat.add_1_r. cbn [scanUp].
    rewrite nth_error_middle.
    pose proof (@startsWith_nonempty (lit "/**") (trim opener) 47%N [42; 42]%N
                  eq_refl Ho) as Hne.
    destruct (trim opener) as [|c t]; [congruence|].
    rewrite Ho. reflexivity.
  - apply Forall_app in HF. destruct HF as [HF Hb]. inversion Hb as [|? ? Hb1 _]; subst.
    rewrite <- app_assoc. cbn [app]. rewrite length_app. cbn [length].
    replace (length above + 1 + (length body + 1))
      with (S (length above + 1 + length body)) by lia.
    cbn [scanUp].
    replace (above ++ opener :: body ++ b :: rest)
      with ((above ++ opener :: body) ++ b :: rest)
      by (rewrite <- app_assoc; reflexivity).
    replace (length above + 1 + length body) with (length (above ++ opener :: body))
      by (rewrite length_app; simpl; lia).
    rewrite nth_error_middle.
    replace (length (above ++ opener :: body)) with (length above + 1 + length body)
      by (rewrite length_app; simpl; lia).
    rewrite <- app_assoc. cbn [app].
    rewrite map_app, filter_app. cbn [map filter].
    destruct Hb1 as [Hb1 | Hb1].
    + rewrite Hb1. cbn [nonblank]. rewrite app_nil_r. apply IH. exact HF.
    + pose proof (@startsWith_nonempty (lit "*") (trim b) 42%N []%N eq_refl Hb1) as Hne.
      destruct (trim b) as [|c t] eqn:Et; [congruence|].
      rewrite (star_not_opener _ Hb1), Hb1. cbn [orb negb andb nonblank].
      rewrite IH by exact HF. rewrite <- app_assoc. reflexivity.
Qed.

Lemma getJSDocComment_scan (n : JsVal) (sourceCode_ : jsstring) (sl el : Z) :
  loc_of n = Some (sl, el) ->
  getJSDocComment n sourceCode_
  = match scanUp (split_nl sourceCode_) (Z.to_nat (sl - 1)) [] false with
    | Throw e => Throw e
    | Ok [] => Ok (mkDocResult false None)
    | Ok (d :: docLines) => Ok (mkDocResult true (Some (join_nl (d :: docLines))))
    end.
Proof.
  unfold getJSDocComment, loc_of. intros H.
  destruct (get "loc" n) as [[| | | |a b c d| |]|]; try discriminate H.
  injection H as -> ->. cbn [truthy negb].
  replace (sl - 1 - 1 + 1)%Z with (sl - 1)%Z by lia.
  destruct (scanUp _ _ _ _) as [[|d0 dl]|e]; reflexivity.
Qed.

(** A doc block is found whole: when the lines above the function are
    an opener line (trimmed, it starts with the doc opener) followed up
    to the function only by lines that are blank or, trimmed, start with
    a star, the comment is found and its text is the opener and the
    starred lines, each trimmed, joined by newlines; blank lines are
    left out. What stands above the opener plays no part. *)
Theorem doc_block_found (n : JsVal) (sourceCode_ : jsstring) (sl el : Z)
    (above rest body : list jsstring) (opener : jsstring) :
  loc_of n = Some (sl, el) ->
  split_nl sourceCode_ = above ++ opener :: body ++ rest ->
  Z.to_nat (sl - 1) = length above + 1 + length body ->
  startsWith (lit "/**") (trim opener) = true ->
  Forall (fun b => trim b = [] \/ startsWith (lit "*") (trim b) = true) body ->
  getJSDocComment n sourceCode_
  = Ok (mkDocResult true
          (Some (join_nl (trim opener :: filter nonblank (map trim body))))).
Proof.
  intros Hloc Hl Hn Ho Hb.
  rewrite (getJSDocComment_scan _ _ Hloc), Hl, Hn.
  rewrite (@scanUp_block above rest opener body Ho Hb []), app_nil_r.
  reflexivity.
Qed.

Lemma doc_block_found_witness :
  loc_of (function_declaration "double" 5) = Some (5%Z, 5%Z) /\
  split_nl doubles_source
  = [lit ""] ++ lit "/**" :: [lit " * Doubles x"; lit " */"]
    ++ [lit "function double(x) { return x*2 }"] /\
  getJSDocComment (function_declaration "double" 5) doubles_source
  = Ok (mkDocResult true
          (Some (join_nl (trim (lit "/**")
                          :: filter nonblank
                               (map trim [lit " * Doubles x"; lit " */"]))))).
Proof.
  split; [reflexivity|]. split; [reflexivity|].
  apply (@doc_block_found (function_declaration "double" 5) doubles_source
           5%Z 5%Z [lit ""] [lit "function double(x) { return x*2 }"]
           [lit " * Doubles x"; lit " */"] (lit "/**"));
    try reflexivity.
  repeat constructor; right; reflexivity.
Defined.

Lemma slashes_not_star (t : jsstring) :
  startsWith (lit "//") t = true ->
  startsWith (lit "*") t = false /\ startsWith (lit "/**") t = false.
Proof.
  intros H. apply startsWith_spec in H. destruct H as [t1 ->]. split; reflexivity.
Qed.

(** The nearest line that is not blank decides: when, going up from the
    function, the first such line exists, a comment is reported exactly
    when that line, trimmed, starts with a star or with the doc opener.
    In particular a line comment above the function is never taken as
    its documentation. *)
Theorem nearest_line_decides (n : JsVal) (sourceCode_ : jsstring) (sl el : Z)
    (above blanks rest : list jsstring) (l : jsstring) :
  loc_of n = Some (sl, el) ->
  split_nl sourceCode_ = above ++ l :: blanks ++ rest ->
  Z.to_nat (sl - 1) = length above + 1 + length blanks ->
  Forall (fun b => trim b = []) blanks ->
  trim l <> [] ->
  exists r,
    getJSDocComment n sourceCode_ = Ok r /\
    hasDoc r = startsWith (lit "*") (trim l) || startsWith (lit "/**") (trim l) /\
    (startsWith (lit "//") (trim l) = true -> hasDoc r = false).
Proof.
  intros Hloc Hl Hn Hb Hne.
  assert (Hmain : exists r,
            getJSDocComment n sourceCode_ = Ok r /\
            hasDoc r = startsWith (lit "*") (trim l)
                       || startsWith (lit "/**") (trim l)).
  { rewrite (getJSDocComment_scan _ _ Hloc), Hl, Hn.
    replace (above ++ l :: blanks ++ rest) with ((above ++ [l]) ++ blanks ++ rest)
      by (rewrite <- app_assoc; reflexivity).
    replace (length above + 1 + length blanks)
      with (length (above ++ [l]) + length blanks)
      by (rewrite length_app; simpl; lia).
    rewrite (@scanUp_blanks (above ++ [l]) blanks rest [] false Hb).
    rewrite length_app. cbn [length]. rewrite Nat.add_1_r. cbn [scanUp].
    rewrite <- app_assoc. cbn [app].
    replace (above ++ l :: blanks ++ rest) with (above ++ l :: (blanks ++ rest))
      by reflexivity.
    rewrite nth_error_middle.
    destruct (trim l) as [|c t] eqn:Et; [congruence|].
    destruct (startsWith (lit "/**") (c :: t)) eqn:Eo.
    - eexists. split; [reflexivity|]. cbn [hasDoc]. rewrite orb_true_r. reflexivity.
    - destruct (startsWith (lit "*") (c :: t)) eqn:Es.
      + cbn [orb negb andb].
        destruct (@scanUp_in_range (above ++ l :: blanks ++ rest) (length above)
                    ltac:(rewrite length_app; lia) [c :: t]) as [more Hm].
        match goal with
        | |- context [scanUp ?a ?b ?c0 ?d] =>
            destruct (scanUp a b c0 d) as [dl|e] eqn:Es2
        end.
        * assert (Hdl : Ok dl = Ok (more ++ [c :: t]))
            by (etransitivity; [symmetry; exact Es2 | exact Hm]).
          injection Hdl as ->.
          destruct more; eexists; split; reflexivity.
        * exfalso. assert (Hdl : Throw e = Ok (more ++ [c :: t]))
            by (etransitivity; [symmetry; exact Es2 | exact Hm]).
          discriminate Hdl.
      + assert (Hc : startsWith (lit "*/") (c :: t) = false).
        { destruct (startsWith (lit "*/") (c :: t)) eqn:Ec; [|reflexivity].
          rewrite (closer_is_star _ Ec) in Es. discriminate Es. }
        rewrite Hc. cbn [orb negb andb].
        eexists. split; reflexivity. }
  destruct Hmain as [r [Hr Hd]]. exists r. split; [exact Hr|]. split; [exact Hd|].
  intros Hs. destruct (slashes_not_star _ Hs) as [H1 H2].
  rewrite Hd, H1, H2. reflexivity.
Qed.

Lemma nearest_line_decides_witness :
  loc_of (function_declaration "double" 3) = Some (3%Z, 3%Z) /\
  split_nl line_comment_source
  = [] ++ lit "// Doubles x" :: [lit ""]
    ++ [lit "function double(x) { return x*2 }"] /\
  exists r,
    getJSDocComment (function_declaration "double" 3) line_comment_source = Ok r /\
    hasDoc r = startsWith (lit "*") (trim (lit "// Doubles x"))
               || startsWith (lit "/**") (trim (lit "// Doubles x")) /\
    (startsWith (lit "//") (trim (lit "// Doubles x")) = true -> hasDoc r = false).
Proof.
  split; [reflexivity|]. split; [reflexivity|].
  apply (@nearest_line_decides (function_declaration "double" 3)
           line_comment_source 3%Z 3%Z [] [lit ""]
           [lit "function double(x) { return x*2 }"] (lit "// Doubles x"));
    try reflexivity.
  - repeat constructor.
  - discriminate.
Defined.

(** The ends of the scan: a function that starts on the first line has
    nothing above it and is reported without a comment; a function whose
    start line lies more than one line past the lines that
    [split("\n")] yields makes the scan read an undefined line, which
    throws. *)
Theorem scan_bounds (n : JsVal) (sourceCode_ : jsstring) (sl el : Z) :
  loc_of n = Some (sl, el) ->
  ((sl <= 1)%Z -> getJSDocComment n sourceCode_ = Ok (mkDocResult false None)) /\
  ((Z.of_nat (length (split_nl sourceCode_)) < sl - 1)%Z ->
   getJSDocComment n sourceCode_ = Throw TypeError).
Proof.
  intros Hloc. rewrite (getJSDocComment_scan _ _ Hloc). split; intros H.
  - replace (Z.to_nat (sl - 1)) with 0 by lia. reflexivity.
  - destruct (Z.to_nat (sl - 1)) as [|k] eqn:Ek; [lia|]. cbn [scanUp].
    destruct (nth_error (split_nl sourceCode_) k) eqn:En; [|reflexivity].
    assert (k < length (split_nl sourceCode_))
      by (apply nth_error_Some; congruence).
    lia.
Qed.

Lemma scan_bounds_witness :
  loc_of (function_declaration "double" 1) = Some (1%Z, 1%Z) /\
  (((1 <= 1)%Z ->
    getJSDocComment (function_declaration "double" 1) doubles_source
    = Ok (mkDocResult false None)) /\
   ((Z.of_nat (length (split_nl doubles_source)) < 1 - 1)%Z ->
    getJSDocComment (function_declaration "double" 1) doubles_source
    = Throw TypeError)).
Proof.
  split; [reflexivity|].
  apply (@scan_bounds (function_declaration "double" 1) doubles_source 1%Z 1%Z).
  reflexivity.
Defined.

(* ================================================================== *)
(** * The scan as a whole *)
(* ================================================================== *)

(** For a tree-sitter language [processFile] needs no ESLint: it
    returns its records, hands off the documented ones and only adds to
    the console. *)
Lemma processFile_tree (env : Env) (filePath_ : jsstring) (language : LanguageKey) :
  language <> js -> language <> ts ->
  exists fs l, forall g,
    processFile env filePath_ language g
    = Ok (fs, mkGlobal (documentedFunctions g ++ map entry_of (filter isDocumented fs))
                       (console g ++ l)).
Proof.
  intros Hjs Hts.
  assert (Htree : exists fs l, forall g,
             match tryTreeFile env filePath_ language g with
             | (Ok functions_, g') => Ok (functions_, g')
             | (Throw e, g') => Ok (catch_file env filePath_ e g')
             end
             = Ok (fs, mkGlobal (documentedFunctions g
                                 ++ map entry_of (filter isDocumented fs))
                                (console g ++ l))).
  { unfold tryTreeFile, catch_file, console_write.
    destruct (readFileSync env filePath_) as [src|e];
      [|exists [], [LogErrorProcessing (relative env filePath_) e];
        intros g; cbn; rewrite app_nil_r; reflexivity].
    destruct (queryMatches env language src) as [[|m ms]|e].
    - exists [], []. intros g. cbn. rewrite !app_nil_r.
      destruct g; reflexivity.
    - eexists _, [LogScanning (relative env filePath_)]. intros g.
      rewrite processMatchesAndCollect_spec. cbn. reflexivity.
    - exists [], [LogErrorProcessing (relative env filePath_) e].
      intros g. cbn. rewrite app_nil_r. reflexivity. }
  destruct language; cbn [processFile]; try congruence; exact Htree.
Qed.

Lemma processFile_extends (env : Env) (filePath_ : jsstring)
    (language : LanguageKey) (g g' : Global) (fs : list Function) :
  processFile env filePath_ language g = Ok (fs, g') ->
  exists d l, g' = mkGlobal (documentedFunctions g ++ d) (console g ++ l).
Proof.
  intros H.
  assert (Hjs : (language = js \/ language = ts) ->
            exists d l, g' = mkGlobal (documentedFunctions g ++ d) (console g ++ l)).
  { intros Hl. destruct (newESLint env) as [[]|e] eqn:Ee.
    - destruct (processFile_uniform env filePath_ language Ee) as [fs0 [d [l Hu]]].
      rewrite Hu in H. injection H as _ <-. exists d, l. reflexivity.
    - exfalso. destruct Hl as [-> | ->]; cbn [processFile] in H;
        unfold processJavaScriptFile in H; rewrite Ee in H; discriminate H. }
  destruct language; try (apply Hjs; auto; fail);
    match goal with
    | H : processFile _ _ ?l _ = _ |- _ =>
        destruct (@processFile_tree env filePath_ l ltac:(discriminate)
                    ltac:(discriminate)) as [fs0 [l0 Hu]];
        rewrite Hu in H; injection H as _ <-; eexists _, l0; reflexivity
    end.
Qed.

Lemma reportFunctions_spec (fs : list Function) :
  exists l, forall g,
    reportFunctions fs g
    = (filter (fun f => negb (isDocumented f)) fs,
       mkGlobal (documentedFunctions g) (console g ++ l)).
Proof.
  induction fs as [|f fs [l IH]]; simpl.
  - exists []. intros g. rewrite app_nil_r. destruct g; reflexivity.
  - destruct (isDocumented f); cbn [negb].
    + exists (LogSuccess (name f) :: l). intros g. rewrite IH.
      cbn. rewrite <- app_assoc. reflexivity.
    + exists l. intros g. rewrite IH. reflexivity.
Qed.

Lemma scanFiles_extends (env : Env) (files : list jsstring) :
  forall g r g', scanFiles env files g = (r, g') ->
    exists d l, g' = mkGlobal (documentedFunctions g ++ d) (console g ++ l).
Proof.
  induction files as [|file rest IH]; intros g r g'; simpl.
  - intros [= _ <-]. exists [], []. rewrite !app_nil_r. destruct g; reflexivity.
  - destruct (getLanguageForFile file) as [language|]; [|apply IH].
    destruct (processFile env file language g) as [[fs g1]|e] eqn:Ep.
    + destruct (processFile_extends _ _ _ _ Ep) as [d1 [l1 ->]].
      destruct (reportFunctions_spec fs) as [l2 Hr]. rewrite Hr.
      cbn [documentedFunctions console].
      match goal with |- context [scanFiles env rest ?g3] =>
        destruct (scanFiles env rest g3) as [r4 g4] eqn:Es;
        destruct (IH _ _ _ Es) as [d4 [l4 ->]] end.
      cbn [documentedFunctions console].
      intros H. exists (d1 ++ generateDocs env
                          (filter (fun f => negb (isDocumented f)) fs) ++ d4),
                  (l1 ++ l2 ++ l4).
      destruct r4; injection H as _ <-; rewrite <- !app_assoc; reflexivity.
    + intros [= _ <-]. exists [], []. rewrite !app_nil_r. destruct g; reflexivity.
Qed.

(** The scan only ever appends: whatever the files and whatever fails,
    the collection and the console it leaves start with the collection
    and the console it was given. *)
Theorem scan_appends_only (env : Env) (files : list jsstring) (g : Global) :
  exists d l,
    documentedFunctions (parseAndDocument env files g) = documentedFunctions g ++ d /\
    console (parseAndDocument env files g) = console g ++ l.
Proof.
  unfold parseAndDocument.
  destruct (scanFiles env files g) as [[out|e] g'] eqn:Es;
    destruct (scanFiles_extends _ _ _ Es) as [d [l ->]].
  - exists d, l. auto.
  - exists d, (l ++ [LogParserError e]). cbn. rewrite <- app_assoc. auto.
Qed.

Lemma tree_files_cons file rest :
  tree_files (file :: rest) ->
  (forall language, getLanguageForFile file = Some language ->
     language <> js /\ language <> ts) /\ tree_files rest.
Proof.
  intros H. split.
  - intros language Hl. destruct (H file (or_introl eq_refl)) as [H1 H2].
    split; congruence.
  - intros x Hx. apply H. right. exact Hx.
Qed.

Lemma file_records_tree (env : Env) (file : jsstring) (language : LanguageKey)
    fs g g' :
  language <> js -> language <> ts ->
  getLanguageForFile file = Some language ->
  processFile env file language g = Ok (fs, g') ->
  file_records env file = fs.
Proof.
  intros Hjs Hts Hl Hp. unfold file_records. rewrite Hl.
  destruct (processFile_tree env file Hjs Hts) as [fs0 [l H]].
  rewrite H in Hp. rewrite H. congruence.
Qed.

Lemma scanFiles_tree (env : Env) (files : list jsstring) :
  tree_files files ->
  forall g, exists l,
    scanFiles env files g
    = (Ok (scan_results env files),
       mkGlobal (documentedFunctions g
                 ++ flat_map (file_contribution env) (scan_results env files))
                (console g ++ l)).
Proof.
  induction files as [|file rest IH]; intros Ht g.
  - exists []. simpl. rewrite !app_nil_r. destruct g; reflexivity.
  - destruct (tree_files_cons Ht) as [Hf Hrest]. cbn [scanFiles scan_results].
    destruct (getLanguageForFile file) as [language|] eqn:El; [|apply IH; exact Hrest].
    destruct (Hf language eq_refl) as [Hjs Hts].
    destruct (processFile_tree env file Hjs Hts) as [fs [l H]]. rewrite H.
    rewrite (file_records_tree env file g Hjs Hts El (H g)).
    destruct (reportFunctions_spec fs) as [l2 Hr]. rewrite Hr.
    cbn [documentedFunctions console].
    match goal with |- context [scanFiles env rest ?g3] =>
      destruct (IH Hrest g3) as [l4 Hs] end.
    rewrite Hs. cbn [documentedFunctions console flat_map].
    exists (l ++ l2 ++ l4). unfold file_contribution at 2. cbn [snd].
    rewrite <- !app_assoc. reflexivity.
Qed.

(** A scan of files of the tree-sitter languages never throws, with or
    without ESLint, and the collection it leaves is the one it was
    given followed, file by file in scan order, by the entries of the
    file's documented records and then by what the generator returned
    for the file's undocumented records. *)
Theorem tree_scan_collection (env : Env) (files : list jsstring) (g : Global) :
  tree_files files ->
  fst (scanFiles env files g) = Ok (scan_results env files) /\
  documentedFunctions (parseAndDocument env files g)
  = documentedFunctions g
    ++ flat_map (file_contribution env) (scan_results env files).
Proof.
  intros Ht. destruct (scanFiles_tree env Ht g) as [l H].
  unfold parseAndDocument. rewrite H. split; reflexivity.
Qed.

Lemma three_py_files_tree : tree_files [one_py; two_py; three_py].
Proof.
  intros file [<- | [<- | [<- | []]]]; split; intros H; vm_compute in H;
    discriminate H.
Qed.

Lemma tree_scan_collection_witness :
  tree_files [one_py; two_py; three_py] /\
  fst (scanFiles no_eslint_env [one_py; two_py; three_py] empty_global)
  = Ok (scan_results no_eslint_env [one_py; two_py; three_py]) /\
  documentedFunctions
    (parseAndDocument no_eslint_env [one_py; two_py; three_py] empty_global)
  = documentedFunctions empty_global
    ++ flat_map (file_contribution no_eslint_env)
         (scan_results no_eslint_env [one_py; two_py; three_py]).
Proof.
  split; [exact three_py_files_tree|].
  apply (@tree_scan_collection no_eslint_env [one_py; two_py; three_py]
           empty_global three_py_files_tree).
Defined.

(** When ESLint cannot be constructed, the first JavaScript or
    TypeScript file ends the scan: the files before it are processed,
    the error is reported once as a parser error, and no later file is
    read. *)
Theorem eslint_failure_ends_scan (env : Env) (pre post : list jsstring)
    (file : jsstring) (e : Exn) (g : Global) :
  newESLint env = Throw e ->
  getLanguageForFile file = Some js \/ getLanguageForFile file = Some ts ->
  tree_files pre ->
  exists g1,
    scanFiles env pre g = (Ok (scan_results env pre), g1) /\
    scanFiles env (pre ++ file :: post) g = (Throw e, g1) /\
    parseAndDocument env (pre ++ file :: post) g
    = console_write (LogParserError e) g1.
Proof.
  intros He Hl. revert g.
  assert (Hfile : forall g, scanFiles env (file :: post) g = (Throw e, g)).
  { intros g. cbn [scanFiles].
    destruct Hl as [-> | ->]; cbn [processFile]; unfold processJavaScriptFile;
      rewrite He; reflexivity. }
  induction pre as [|x pre IH]; intros g Ht.
  - exists g. cbn [app]. unfold parseAndDocument. rewrite Hfile. auto.
  - destruct (tree_files_cons Ht) as [Hx Hrest].
    unfold parseAndDocument. cbn [app scanFiles scan_results].
    destruct (getLanguageForFile x) as [language|] eqn:El.
    + destruct (Hx language eq_refl) as [Hjs Hts].
      destruct (processFile_tree env x Hjs Hts) as [fs [l H]]. rewrite H.
      rewrite (file_records_tree env x g Hjs Hts El (H g)).
      destruct (reportFunctions_spec fs) as [l2 Hr]. rewrite Hr.
      match goal with |- context [scanFiles env pre ?g3] =>
        destruct (IH g3 Hrest) as [g1 [H1 [H2 _]]] end.
      exists g1. rewrite H1, H2. auto.
    + destruct (IH g Hrest) as [g1 [H1 [H2 H3]]]. exists g1.
      unfold parseAndDocument in H3. rewrite H1, H2 in *. auto.
Qed.

Lemma eslint_failure_ends_scan_witness :
  newESLint no_eslint_env = Throw missing_module /\
  (getLanguageForFile (lit "app.js") = Some js \/
   getLanguageForFile (lit "app.js") = Some ts) /\
  tree_files [one_py] /\
  exists g1,
    scanFiles no_eslint_env [one_py] empty_global
    = (Ok (scan_results no_eslint_env [one_py]), g1) /\
    scanFiles no_eslint_env ([one_py] ++ lit "app.js" :: [three_py]) empty_global
    = (Throw missing_module, g1) /\
    parseAndDocument no_eslint_env ([one_py] ++ lit "app.js" :: [three_py])
      empty_global
    = console_write (LogParserError missing_module) g1.
Proof.
  assert (Ht : tree_files [one_py])
    by (intros file [<- | []]; split; intros H; vm_compute in H; discriminate H).
  assert (Hl : getLanguageForFile (lit "app.js") = Some js \/
               getLanguageForFile (lit "app.js") = Some ts)
    by (left; reflexivity).
  assert (He : newESLint no_eslint_env = Throw missing_module) by reflexivity.
  split; [exact He|]. split; [exact Hl|]. split; [exact Ht|].
  apply (@eslint_failure_ends_scan no_eslint_env [one_py] [three_py]
           (lit "app.js") missing_module empty_global He Hl Ht).
Defined.

(* ================================================================== *)
(** * File discovery: the ignore patterns *)
(* ================================================================== *)

(** The ignore list handed to [glob]: a missing [.gitignore] counts as
    an empty one; a pattern is on the list exactly when it is one of the
    ten default patterns, or a line of [.gitignore] that is neither
    empty nor starts with [#], or a pattern of the caller, or, for a
    pattern of the caller without a star, that pattern behind [**/] or
    [./]. *)
Theorem ignore_patterns_built (content : Result jsstring)
    (ignorePatterns : list jsstring) (e : Exn) :
  allIgnorePatterns (Throw e) ignorePatterns = allIgnorePatterns (Ok []) ignorePatterns /\
  forall q,
    In q (allIgnorePatterns content ignorePatterns) <->
    In q default_ignores \/
    (exists c, content = Ok c /\ In q (split_nl c) /\ q <> []
               /\ startsWith (lit "#") q = false) \/
    (exists p, In p ignorePatterns /\
       (q = p \/
        includes (lit "*") p = false /\ (q = lit "**/" ++ p \/ q = lit "./" ++ p))).
Proof.
  split; [reflexivity|].
  intros q. unfold allIgnorePatterns. rewrite !in_app_iff, in_flat_map.
  assert (Hg : In q (gitignorePatterns content) <->
               exists c, content = Ok c /\ In q (split_nl c) /\ q <> []
                         /\ startsWith (lit "#") q = false).
  { unfold gitignorePatterns. destruct content as [c|e0].
    - rewrite filter_In. split.
      + intros [Hin Hc]. apply andb_true_iff in Hc. destruct Hc as [Hn Hs].
        exists c. repeat split; auto.
        * intros ->. discriminate Hn.
        * destruct (startsWith (lit "#") q); [discriminate Hs | reflexivity].
      + intros [c' [[= <-] [Hin [Hn Hs]]]]. split; [exact Hin|].
        rewrite Hs. destruct q; [congruence | reflexivity].
    - split; [intros [] | intros [c [Hc _]]; discriminate Hc]. }
  assert (Hx : (exists p, In p ignorePatterns /\ In q (expandIgnorePattern p)) <->
               exists p, In p ignorePatterns /\
                 (q = p \/
                  includes (lit "*") p = false /\
                  (q = lit "**/" ++ p \/ q = lit "./" ++ p))).
  { split; intros [p [Hp H]]; exists p; (split; [exact Hp|]);
      unfold expandIgnorePattern in *;
      destruct (includes (lit "*") p); cbn [negb In] in *.
    - destruct H as [<- | []]. auto.
    - destruct H as [<- | [<- | [<- | []]]]; auto.
    - destruct H as [-> | [H _]]; [auto | discriminate H].
    - destruct H as [-> | [_ [-> | ->]]]; auto. }
  rewrite Hg, Hx. tauto.
Qed.

(* ================================================================== *)
(** * Documentation generator: formats and cleaned responses *)
(* ================================================================== *)




Lemma trim_keeps_slashes (s : jsstring) :
  startsWith (lit "//") s = true -> startsWith (lit "//") (trim s) = true.
Proof.
  intros H. apply startsWith_spec in H. destruct H as [t ->].
  change (lit "//" ++ t) with (47%N :: 47%N :: t).
  unfold trim. cbn [trimStart].
  change (is_ws 47) with false. cbv iota.
  rewrite !trimEnd_cons_nonws by reflexivity. reflexivity.
Qed.

Lemma prefixGoLine_slashes (line : jsstring) :
  startsWith (lit "//") (trim (prefixGoLine line)) = true.
Proof.
  unfold prefixGoLine.
  destruct (startsWith (lit "//") (trim line)) eqn:E; [exact E|].
  apply trim_keeps_slashes. reflexivity.
Qed.

Lemma prefixGoLine_no_newline (line : jsstring) :
  no_newline line -> no_newline (prefixGoLine line).
Proof.
  unfold prefixGoLine, no_newline. intros H.
  destruct (startsWith (lit "//") (trim line)); [exact H|].
  intros [E | [E | [E | E]]]; try discriminate E. exact (H E).
Qed.

(** A Go response that passes validation comes back with every one of
    its lines starting, after trimming, with two slashes: lines that
    did not are prefixed, and no line is added or lost. *)
Theorem go_lines_prefixed (response d : jsstring) :
  validateAndCleanResponse response fmt_go = Ok d ->
  split_nl d = map prefixGoLine (split_nl (trim (stripFences Copy response))) /\
  Forall (fun line => startsWith (lit "//") (trim line) = true) (split_nl d).
Proof.
  unfold validateAndCleanResponse.
  destruct (negb (startsWith (lit "//") (trim (stripFences Copy response))));
    [discriminate|].
  intros [= <-].
  assert (Hs : split_nl (join_nl (map prefixGoLine
                 (split_nl (trim (stripFences Copy response)))))
               = map prefixGoLine (split_nl (trim (stripFences Copy response)))).
  { apply split_join.
    - pose proof (split_nl_nonempty (trim (stripFences Copy response))) as Hn.
      destruct (split_nl (trim (stripFences Copy response))); [congruence | discriminate].
    - apply Forall_map. eapply Forall_impl; [|apply split_nl_lines].
      intros l. apply prefixGoLine_no_newline. }
  split; [exact Hs|]. rewrite Hs. apply Forall_map.
  apply Forall_forall. intros l _. apply prefixGoLine_slashes.
Qed.

Lemma go_lines_prefixed_witness :
  validateAndCleanResponse (fenced_response "go" "// Add adds.
it returns the sum") fmt_go
  = Ok (join_nl [lit "// Add adds."; lit "// it returns the sum"]) /\
  split_nl (join_nl [lit "// Add adds."; lit "// it returns the sum"])
  = map prefixGoLine
      (split_nl (trim (stripFences Copy (fenced_response "go" "// Add adds.
it returns the sum")))) /\
  Forall (fun line => startsWith (lit "//") (trim line) = true)
         (split_nl (join_nl [lit "// Add adds."; lit "// it returns the sum"])).
Proof.
  split; [reflexivity|].
  apply (@go_lines_prefixed (fenced_response "go" "// Add adds.
it returns the sum")
           (join_nl [lit "// Add adds."; lit "// it returns the sum"])).
  reflexivity.
Defined.

(** Every supported file finds the documentation format of its own
    language and its display name, with one exception: for a [.jsx]
    file the language key stays [jsx], for which the format table has
    no entry, although the file is scanned as JavaScript. *)
Theorem format_of_supported_file (filePath_ : jsstring) (l : LanguageKey) :
  getLanguageForFile filePath_ = Some l ->
  getLanguageName (skipn 1 (extname filePath_)) = display_name l /\
  ((extname filePath_ = lit ".jsx" /\ l = js /\ formatForFile filePath_ = None) \/
   (extname filePath_ <> lit ".jsx" /\
    exists k, formatForFile filePath_ = Some k /\ format_language k = l)).
Proof.
  intros H. apply lookup_spec in H. unfold formatForFile.
  destruct l; cbn in H;
    repeat (destruct H as [H | H]; [rewrite <- H; clear H|]); try contradiction;
    (split; [reflexivity|]);
    first [ left; repeat split; reflexivity
          | right; split; [discriminate | eexists; split; reflexivity] ].
Qed.

Lemma format_of_supported_file_witness :
  getLanguageForFile (lit "/repo/src/App.jsx") = Some js /\
  getLanguageName (skipn 1 (extname (lit "/repo/src/App.jsx"))) = display_name js /\
  ((extname (lit "/repo/src/App.jsx") = lit ".jsx" /\ js = js
    /\ formatForFile (lit "/repo/src/App.jsx") = None) \/
   (extname (lit "/repo/src/App.jsx") <> lit ".jsx" /\
    exists k, formatForFile (lit "/repo/src/App.jsx") = Some k
              /\ format_language k = js)).
Proof.
  split; [reflexivity|].
  apply (@format_of_supported_file (lit "/repo/src/App.jsx") js).
  reflexivity.
Defined.

(* ================================================================== *)
(** * Documentation generator: where the documentation lands *)
(* ================================================================== *)

Lemma split_nl_app_nl (x s : jsstring) :
  split_nl (x ++ 10%N :: s) = split_nl x ++ split_nl s.
Proof.
  induction x as [|c x IH]; [reflexivity|].
  cbn [app split_nl]. rewrite IH.
  destruct (c =? 10)%N; [reflexivity|].
  pose proof (split_nl_nonempty x) as Hn.
  destruct (split_nl x); [congruence | reflexivity].
Qed.

Lemma join_nl_cons (x : jsstring) (rest : list jsstring) :
  rest <> [] -> join_nl (x :: rest) = x ++ 10%N :: join_nl rest.
Proof. destruct rest; [congruence | reflexivity]. Qed.

Lemma join_nl_app (a b : list jsstring) :
  a <> [] -> b <> [] -> join_nl (a ++ b) = join_nl a ++ 10%N :: join_nl b.
Proof.
  intros Ha Hb. induction a as [|x a IH]; [congruence|].
  destruct a as [|y a].
  - cbn [app]. rewrite join_nl_cons by exact Hb. reflexivity.
  - change ((x :: y :: a) ++ b) with (x :: ((y :: a) ++ b)).
    rewrite join_nl_cons by discriminate. rewrite IH by discriminate.
    rewrite (@join_nl_cons x (y :: a)) by discriminate.
    rewrite <- app_assoc. reflexivity.
Qed.

Lemma flat_split_nonempty (b : list jsstring) :
  b <> [] -> flat_map split_nl b <> [].
Proof.
  destruct b as [|x b]; [congruence|]. intros _. cbn [flat_map].
  pose proof (split_nl_nonempty x). destruct (split_nl x); [congruence | discriminate].
Qed.

(** Reading back a file written from chunks splits every chunk. *)
Lemma split_join_flat (b : list jsstring) :
  b <> [] -> split_nl (join_nl b) = flat_map split_nl b.
Proof.
  induction b as [|x b IH]; [congruence|]. intros _.
  destruct b as [|y b].
  - simpl. rewrite app_nil_r. reflexivity.
  - rewrite join_nl_cons by discriminate.
    rewrite split_nl_app_nl, IH by discriminate. reflexivity.
Qed.

Lemma join_flat (b : list jsstring) :
  b <> [] -> join_nl (flat_map split_nl b) = join_nl b.
Proof.
  induction b as [|x b IH]; [congruence|]. intros _.
  destruct b as [|y b].
  - simpl. rewrite app_nil_r. apply join_split.
  - cbn [flat_map].
    rewrite join_nl_app;
      [|apply split_nl_nonempty | apply (@flat_split_nonempty (y :: b)); discriminate].
    change (flat_map split_nl (y :: b)) with (split_nl y ++ flat_map split_nl b) in IH.
    rewrite IH by discriminate.
    rewrite join_split. rewrite (@join_nl_cons x (y :: b)) by discriminate.
    reflexivity.
Qed.

Lemma flat_split_lines (a : list jsstring) :
  Forall no_newline a -> flat_map split_nl a = a.
Proof.
  induction 1 as [|x a Hx _ IH]; [reflexivity|].
  cbn [flat_map]. rewrite (split_nl_line Hx), IH. reflexivity.
Qed.

Lemma firstn_skipn_length {A} (k : nat) (l : list A) :
  k <= length l -> length (firstn k l) = k.
Proof. intros H. rewrite length_firstn. lia. Qed.

Lemma app_at_length {A} (k : nat) (a b : list A) :
  length a = k -> firstn k (a ++ b) = a /\ skipn k (a ++ b) = b.
Proof.
  intros <-. split.
  - rewrite firstn_app, firstn_all, Nat.sub_diag, firstn_O, app_nil_r. reflexivity.
  - rewrite skipn_app, skipn_all, Nat.sub_diag. reflexivity.
Qed.

(** One task, seen on chunks: when the file is the join of chunks
    whose first [k] are lines, documenting a function that starts on
    line [k] puts the documentation, as one chunk, at index [k]. *)
Lemma edit_step (chunks : list jsstring) (k : nat) (f : Function)
    (d : jsstring) (langKey : FormatKey) :
  langKey <> fmt_py ->
  startLine f = Z.of_nat k ->
  k < length chunks ->
  Forall no_newline (firstn k chunks) ->
  insertDocumentation (join_nl chunks) f d langKey
  = Ok (join_nl (insert_at k d chunks)).
Proof.
  intros Hk Hs Hlen Hlines.
  assert (Hb : skipn k chunks <> []).
  { intros E. apply (f_equal (@length jsstring)) in E.
    rewrite length_skipn in E. simpl in E. lia. }
  assert (Hc : chunks <> []) by (intros ->; simpl in Hlen; lia).
  assert (Hsplit : split_nl (join_nl chunks)
                   = firstn k chunks ++ flat_map split_nl (skipn k chunks)).
  { rewrite (split_join_flat Hc).
    rewrite <- (firstn_skipn k chunks) at 1.
    rewrite flat_map_app, (flat_split_lines Hlines). reflexivity. }
  assert (Hins : splice_insert (split_nl (join_nl chunks)) (startLine f) d
                 = firstn k chunks ++ d :: flat_map split_nl (skipn k chunks)).
  { unfold splice_insert. rewrite Hsplit, Hs.
    pose proof (@firstn_skipn_length _ k chunks ltac:(lia)) as Hf.
    unfold slice_index. destruct (Z.ltb_spec (Z.of_nat k) 0); [lia|].
    rewrite Z.min_l by (rewrite length_app; lia).
    rewrite Nat2Z.id.
    destruct (@app_at_length _ k (firstn k chunks)
                (flat_map split_nl (skipn k chunks)) Hf) as [-> ->].
    reflexivity. }
  assert (Hjoin : join_nl (firstn k chunks ++ d :: flat_map split_nl (skipn k chunks))
                  = join_nl (insert_at k d chunks)).
  { unfold insert_at.
    change (firstn k chunks ++ d :: flat_map split_nl (skipn k chunks))
      with (firstn k chunks ++ [d] ++ flat_map split_nl (skipn k chunks)).
    change (firstn k chunks ++ d :: skipn k chunks)
      with (firstn k chunks ++ [d] ++ skipn k chunks).
    rewrite !app_assoc.
    rewrite !(@join_nl_app (firstn k chunks ++ [d]));
      try (intros E; apply app_eq_nil in E; destruct E; discriminate);
      try exact Hb; try (apply flat_split_nonempty; exact Hb).
    rewrite (join_flat Hb). reflexivity. }
  unfold insertDocumentation.
  destruct langKey; try congruence; rewrite Hins, Hjoin; reflexivity.
Qed.

Lemma insert_at_length {A} (k : nat) (x : A) (l : list A) :
  length (insert_at k x l) = S (length l).
Proof.
  unfold insert_at. rewrite length_app. cbn [length].
  rewrite <- (firstn_skipn k l) at 3. rewrite length_app. lia.
Qed.

Lemma insert_at_prefix {A} (j k : nat) (x : A) (l : list A) :
  j <= k -> k <= length l -> firstn j (insert_at k x l) = firstn j l.
Proof.
  intros Hj Hk. unfold insert_at.
  rewrite firstn_app, (@firstn_skipn_length _ k l Hk).
  replace (j - k) with 0 by lia. rewrite firstn_O, app_nil_r.
  rewrite firstn_firstn. f_equal. lia.
Qed.

(** The tasks in descending order, seen on chunks. *)
Lemma apply_edits_chunks (docFor : Function -> jsstring) (langKey : FormatKey)
    (tasks : list Function) :
  langKey <> fmt_py ->
  forall chunks,
    descending (map (edit_of docFor) tasks) ->
    (forall f, In f tasks ->
       (0 <= startLine f)%Z /\ Z.to_nat (startLine f) < length chunks /\
       Forall no_newline (firstn (Z.to_nat (startLine f)) chunks)) ->
    applyEdits docFor langKey tasks (join_nl chunks)
    = Ok (join_nl (insert_all (map (edit_of docFor) tasks) chunks)).
Proof.
  intros Hk. induction tasks as [|f tasks IH]; intros chunks Hd Hf; [reflexivity|].
  cbn [applyEdits map insert_all fold_left].
  destruct (Hf f (or_introl eq_refl)) as [H0 [Hlen Hlines]].
  rewrite (@edit_step chunks (Z.to_nat (startLine f)) f (docFor f) langKey Hk
             ltac:(lia) Hlen Hlines).
  cbn [edit_of fst snd]. destruct Hd as [Hle Hd].
  apply IH; [exact Hd|].
  intros f' Hin. destruct (Hf f' (or_intror Hin)) as [H0' [Hlen' Hlines']].
  assert (Hle' : Z.to_nat (startLine f') <= Z.to_nat (startLine f)).
  { apply (Hle (edit_of docFor f')). apply in_map. exact Hin. }
  split; [exact H0'|]. split.
  - rewrite insert_at_length. lia.
  - rewrite insert_at_prefix by lia. exact Hlines'.
Qed.

Lemma insert_all_app (a b : list (nat * jsstring)) (ch : list jsstring) :
  insert_all (a ++ b) ch = insert_all b (insert_all a ch).
Proof. apply fold_left_app. Qed.

Lemma insert_all_below (ps : list (nat * jsstring)) :
  (forall p, In p ps -> 1 <= fst p) ->
  forall l rest, insert_all ps (l :: rest) = l :: insert_all (map shift_up ps) rest.
Proof.
  induction ps as [|[k x] ps IH]; intros Hp l rest; [reflexivity|].
  cbn [insert_all fold_left map fst snd shift_up].
  pose proof (Hp (k, x) (or_introl eq_refl)) as Hk. cbn [fst] in Hk.
  destruct k as [|k]; [lia|]. cbn [pred].
  change (insert_at (S k) x (l :: rest)) with (l :: insert_at k x rest).
  apply IH. intros p Hin. apply Hp. right. exact Hin.
Qed.

Lemma insert_all_top (ps : list (nat * jsstring)) :
  (forall p, In p ps -> fst p = 0) ->
  forall ch, insert_all ps ch = rev (map snd ps) ++ ch.
Proof.
  induction ps as [|[k x] ps IH]; intros Hp ch; [reflexivity|].
  cbn [insert_all fold_left map fst snd rev].
  pose proof (Hp (k, x) (or_introl eq_refl)) as Hk. cbn [fst] in Hk. subst k.
  change (insert_at 0 x ch) with (x :: ch).
  fold (insert_all ps (x :: ch)).
  rewrite IH by (intros p Hin; apply Hp; right; exact Hin).
  rewrite <- app_assoc. reflexivity.
Qed.

Lemma descending_split (ps : list (nat * jsstring)) :
  descending ps ->
  ps = filter (fun p => negb (fst p =? 0)) ps ++ filter (fun p => fst p =? 0) ps.
Proof.
  induction ps as [|p ps IH]; intros Hd; [reflexivity|].
  destruct Hd as [Hle Hd]. cbn [filter].
  destruct (Nat.eqb_spec (fst p) 0) as [H0|H0]; cbn [negb].
  - assert (Hall : forall q, In q ps -> (fst q =? 0) = true).
    { intros q Hq. apply Nat.eqb_eq. specialize (Hle q Hq). lia. }
    assert (H1 : filter (fun p => negb (fst p =? 0)) ps = []).
    { clear -Hall. induction ps as [|q ps IH]; [reflexivity|].
      cbn [filter]. rewrite (Hall q (or_introl eq_refl)). cbn [negb].
      apply IH. intros r Hr. apply Hall. right. exact Hr. }
    assert (H2 : filter (fun p => fst p =? 0) ps = ps).
    { clear -Hall. induction ps as [|q ps IH]; [reflexivity|].
      cbn [filter]. rewrite (Hall q (or_introl eq_refl)). f_equal.
      apply IH. intros r Hr. apply Hall. right. exact Hr. }
    rewrite H1, H2. reflexivity.
  - cbn [app]. f_equal. apply IH. exact Hd.
Qed.

Lemma descending_filter (q : nat * jsstring -> bool) (ps : list (nat * jsstring)) :
  descending ps -> descending (filter q ps).
Proof.
  induction ps as [|p ps IH]; intros Hd; [exact I|].
  destruct Hd as [Hle Hd]. cbn [filter].
  destruct (q p); [|apply IH; exact Hd].
  split; [|apply IH; exact Hd].
  intros r Hr. apply filter_In in Hr. apply Hle. tauto.
Qed.

Lemma descending_shift (ps : list (nat * jsstring)) :
  descending ps -> descending (map shift_up ps).
Proof.
  induction ps as [|p ps IH]; intros Hd; [exact I|].
  destruct Hd as [Hle Hd]. split; [|apply IH; exact Hd].
  intros r Hr. apply in_map_iff in Hr. destruct Hr as [q [<- Hq]].
  specialize (Hle q Hq). cbn [shift_up fst]. lia.
Qed.

Lemma annotate_ext (f g : nat -> list jsstring) (lines : list jsstring) :
  forall i j, (forall n, f (i + n) = g (j + n)) ->
    annotate f i lines = annotate g j lines.
Proof.
  induction lines as [|l rest IH]; intros i j H; [reflexivity|].
  cbn [annotate]. pose proof (H 0) as H0. rewrite !Nat.add_0_r in H0.
  rewrite H0. do 2 f_equal. apply IH.
  intros n. specialize (H (S n)). rewrite !Nat.add_succ_r in H. exact H.
Qed.

Lemma texts_at_shift (ps : list (nat * jsstring)) (n : nat) :
  texts_at (map shift_up (filter (fun p => negb (fst p =? 0)) ps)) n
  = texts_at ps (S n).
Proof.
  unfold texts_at.
  assert (Hf : filter (fun p => fst p =? n)
                 (map shift_up (filter (fun p => negb (fst p =? 0)) ps))
               = map shift_up (filter (fun p => fst p =? S n) ps)).
  { induction ps as [|[k x] ps IH]; [reflexivity|].
    cbn [filter fst]. destruct k as [|k]; cbn [Nat.eqb negb]; [exact IH|].
    cbn [map filter shift_up fst pred]. rewrite IH.
    destruct (k =? n); reflexivity. }
  rewrite Hf, <- map_rev, map_map. reflexivity.
Qed.

Lemma map_snd_shift (ps : list (nat * jsstring)) :
  map snd (map shift_up ps) = map snd ps.
Proof. rewrite map_map. reflexivity. Qed.

(** Inserting at indices that never go up leaves every text directly
    above the line it was aimed at. *)
Lemma insert_all_annotate (lines : list jsstring) :
  forall ps,
    descending ps ->
    (forall p, In p ps -> fst p < length lines) ->
    insert_all ps lines = annotate (texts_at ps) 0 lines.
Proof.
  induction lines as [|l rest IH]; intros ps Hd Hlen.
  - destruct ps as [|p ps]; [reflexivity|].
    specialize (Hlen p (or_introl eq_refl)). simpl in Hlen. lia.
  - rewrite (@descending_split ps Hd) at 1.
    rewrite insert_all_app.
    rewrite insert_all_below.
    2:{ intros p Hp. apply filter_In in Hp. destruct Hp as [_ Hp].
        destruct (Nat.eqb_spec (fst p) 0); [discriminate Hp | lia]. }
    rewrite insert_all_top.
    2:{ intros p Hp. apply filter_In in Hp. destruct Hp as [_ Hp].
        apply Nat.eqb_eq. exact Hp. }
    cbn [annotate]. unfold texts_at at 1. rewrite map_rev. f_equal. f_equal.
    rewrite IH.
    + apply annotate_ext. intros n. cbn [Nat.add]. apply texts_at_shift.
    + apply descending_shift, descending_filter. exact Hd.
    + intros p Hp. apply in_map_iff in Hp. destruct Hp as [q [<- Hq]].
      apply filter_In in Hq. destruct Hq as [Hq Hq0].
      specialize (Hlen q Hq). cbn [length] in Hlen. cbn [shift_up fst].
      destruct (Nat.eqb_spec (fst q) 0); [discriminate Hq0 | lia].
Qed.

Lemma insertByStartLine_In (f x : Function) (sorted : list Function) :
  In x (insertByStartLine f sorted) <-> x = f \/ In x sorted.
Proof.
  induction sorted as [|g rest IH]; cbn [insertByStartLine].
  - simpl. intuition.
  - destruct (startLine g <=? startLine f)%Z; cbn [In]; [intuition|].
    rewrite IH. intuition.
Qed.

Lemma sortByStartLine_In (x : Function) (fs : list Function) :
  In x (sortByStartLine fs) <-> In x fs.
Proof.
  induction fs as [|f fs IH]; [reflexivity|].
  cbn [sortByStartLine fold_right]. fold (sortByStartLine fs).
  rewrite insertByStartLine_In, IH. cbn [In]. intuition.
Qed.

Lemma insertByStartLine_descending (docFor : Function -> jsstring) (f : Function)
    (sorted : list Function) :
  descending (map (edit_of docFor) sorted) ->
  descending (map (edit_of docFor) (insertByStartLine f sorted)).
Proof.
  induction sorted as [|g rest IH]; intros Hd; cbn [insertByStartLine].
  - split; [intros q [] | exact I].
  - destruct (Z.leb_spec (startLine g) (startLine f)).
    + split; [|exact Hd]. intros q Hq. cbn [map] in Hq.
      destruct Hd as [Hle _]. cbn [edit_of fst].
      destruct Hq as [<- | Hq]; [cbn [edit_of fst]; lia|].
      specialize (Hle q Hq). cbn [edit_of fst] in Hle. lia.
    + destruct Hd as [Hle Hd]. split; [|apply IH; exact Hd].
      intros q Hq. apply in_map_iff in Hq. destruct Hq as [x [<- Hx]].
      apply insertByStartLine_In in Hx. destruct Hx as [-> | Hx].
      * cbn [edit_of fst]. lia.
      * apply Hle. apply in_map. exact Hx.
Qed.

Lemma sortByStartLine_descending (docFor : Function -> jsstring) (fs : list Function) :
  descending (map (edit_of docFor) (sortByStartLine fs)).
Proof.
  induction fs as [|f fs IH]; [exact I|].
  apply insertByStartLine_descending. exact IH.
Qed.

(** The sort is stable: the functions that start on one line keep the
    order they had. *)
Lemma insertByStartLine_filter (z : Z) (f : Function) (sorted : list Function) :
  filter (fun x => (startLine x =? z)%Z) (insertByStartLine f sorted)
  = filter (fun x => (startLine x =? z)%Z) (f :: sorted).
Proof.
  induction sorted as [|g rest IH]; [reflexivity|].
  cbn [insertByStartLine].
  destruct (Z.leb_spec (startLine g) (startLine f)); [reflexivity|].
  cbn [filter] in *. rewrite IH.
  destruct (Z.eqb_spec (startLine f) z); [|reflexivity].
  destruct (Z.eqb_spec (startLine g) z); [lia | reflexivity].
Qed.

Lemma sortByStartLine_filter (z : Z) (fs : list Function) :
  filter (fun x => (startLine x =? z)%Z) (sortByStartLine fs)
  = filter (fun x => (startLine x =? z)%Z) fs.
Proof.
  induction fs as [|f fs IH]; [reflexivity|].
  cbn [sortByStartLine fold_right]. fold (sortByStartLine fs).
  rewrite insertByStartLine_filter. cbn [filter]. rewrite IH. reflexivity.
Qed.

Lemma texts_of_functions (docFor : Function -> jsstring) (fs : list Function)
    (i : nat) :
  (forall f, In f fs -> (0 <= startLine f)%Z) ->
  texts_at (map (edit_of docFor) fs) i
  = map docFor (rev (filter (fun f => (startLine f =? Z.of_nat i)%Z) fs)).
Proof.
  intros H0. unfold texts_at.
  assert (Hf : filter (fun p => fst p =? i) (map (edit_of docFor) fs)
               = map (edit_of docFor)
                   (filter (fun f => (startLine f =? Z.of_nat i)%Z) fs)).
  { induction fs as [|f fs IH]; [reflexivity|].
    cbn [map filter edit_of fst].
    rewrite IH by (intros x Hx; apply H0; right; exact Hx).
    specialize (H0 f (or_introl eq_refl)).
    destruct (Nat.eqb_spec (Z.to_nat (startLine f)) i);
      destruct (Z.eqb_spec (startLine f) (Z.of_nat i)); try lia; reflexivity. }
  rewrite Hf, <- map_rev, map_map. reflexivity.
Qed.

(** The documentation lands directly above each function: when every
    task succeeds, for every format but Python's, the file that
    [generateDocs] leaves is the file it found with, above the first
    line of each function, the documentation generated for it; earlier
    insertions further down, however many lines they added, move
    nothing. Functions that start on the same line get their
    documentation stacked, the last function's first. *)
Theorem documentation_lands_above (docFor : Function -> jsstring)
    (langKey : FormatKey) (funcs : list Function) (fileContent : jsstring) :
  langKey <> fmt_py ->
  (forall f, In f funcs ->
     (0 <= startLine f < Z.of_nat (length (split_nl fileContent)))%Z) ->
  documentFile docFor langKey funcs fileContent
  = Ok (join_nl (annotate (docs_above docFor funcs) 0 (split_nl fileContent))).
Proof.
  intros Hk Hb. unfold documentFile.
  rewrite <- (join_split fileContent) at 1.
  rewrite apply_edits_chunks.
  - do 2 f_equal. rewrite insert_all_annotate.
    + apply annotate_ext. intros n. cbn [Nat.add].
      rewrite texts_of_functions.
      * unfold docs_above. rewrite sortByStartLine_filter. reflexivity.
      * intros f Hf. apply (proj1 (@sortByStartLine_In f funcs)) in Hf. apply Hb in Hf. lia.
    + apply sortByStartLine_descending.
    + intros p Hp. apply in_map_iff in Hp. destruct Hp as [f [<- Hf]].
      apply (proj1 (@sortByStartLine_In f funcs)) in Hf. apply Hb in Hf. cbn [edit_of fst]. lia.
  - exact Hk.
  - apply sortByStartLine_descending.
  - intros f Hf. apply (proj1 (@sortByStartLine_In f funcs)) in Hf. apply Hb in Hf.
    split; [lia|]. split; [lia|].
    apply Forall_firstn, split_nl_lines.
Qed.

Lemma documentation_lands_above_witness :
  fmt_java <> fmt_py /\
  (forall f, In f [method_record "a" 1; method_record "c" 5; method_record "b" 3] ->
     (0 <= startLine f < Z.of_nat (length (split_nl three_methods_source)))%Z) /\
  documentFile javadoc_for fmt_java
    [method_record "a" 1; method_record "c" 5; method_record "b" 3]
    three_methods_source
  = Ok (join_nl (annotate
                   (docs_above javadoc_for
                      [method_record "a" 1; method_record "c" 5; method_record "b" 3])
                   0 (split_nl three_methods_source))).
Proof.
  assert (Hb : forall f,
             In f [method_record "a" 1; method_record "c" 5; method_record "b" 3] ->
             (0 <= startLine f < Z.of_nat (length (split_nl three_methods_source)))%Z).
  { intros f [<- | [<- | [<- | []]]]; vm_compute; split; congruence. }
  split; [discriminate|]. split; [exact Hb|].
  apply (@documentation_lands_above javadoc_for fmt_java
           [method_record "a" 1; method_record "c" 5; method_record "b" 3]
           three_methods_source); [discriminate | exact Hb].
Defined.

(* ================================================================== *)
(** * Configuration *)
(* ================================================================== *)

(** The output levels are a threshold: [log] writes the message, once
    and after what was written before, exactly when its level shows no
    more than the output level chosen ([normal] when none is set), and
    writes nothing otherwise. So a [minimal] message is always written,
    and a message written at one output level is written at every
    higher one. *)
Theorem log_is_threshold (message : jsstring) (level : OutputLevel)
    (output : option OutputLevel) (written : list jsstring) :
  log message level output written
  = (if level_rank level <=? level_rank (match output with Some o => o | None => normal end)
     then written ++ [message] else written)
  /\ log message minimal output written = written ++ [message]
  /\ (forall higher : OutputLevel,
        level_rank (match output with Some o => o | None => normal end)
        <= level_rank higher ->
        log message level output written = written ++ [message] ->
        log message level (Some higher) written = written ++ [message]).
Proof.
  split; [|split].
  - destruct level, output as [[]|]; reflexivity.
  - destruct output as [[]|]; reflexivity.
  - intros higher Hle H.
    destruct level, output as [[]|], higher; cbn in Hle; try lia;
      try reflexivity; exact H.
Qed.

Lemma filter_nil_iff (A : Type) (q : A -> bool) (l : list A) :
  filter q l = [] <-> forall x, In x l -> q x = false.
Proof.
  induction l as [|a l IH]; cbn [filter In].
  - split; [intros _ x [] | reflexivity].
  - destruct (q a) eqn:E.
    + split; [discriminate|]. intros H. rewrite (H a (or_introl eq_refl)) in E.
      discriminate E.
    + rewrite IH. split.
      * intros H x [<- | Hx]; [exact E | apply H; exact Hx].
      * intros H x Hx. apply H. right. exact Hx.
Qed.

Lemma envVarMissing_false (env : jsstring -> option jsstring) (envVar : jsstring) :
  envVarMissing env envVar = false
  <-> exists v, env envVar = Some v /\ exists c, In c v /\ is_ws c = false.
Proof.
  unfold envVarMissing. destruct (env envVar) as [v|].
  - split.
    + intros H. exists v. split; [reflexivity|].
      apply trim_nonempty. destruct v as [|c v]; [discriminate H|].
      destruct (trim (c :: v)); [discriminate H | simpl; lia].
    + intros [v' [Hv Hc]]. injection Hv as <-.
      apply trim_nonempty in Hc.
      destruct v as [|c v]; [simpl in Hc; lia|].
      destruct (trim (c :: v)); [simpl in Hc; lia | reflexivity].
  - split; [discriminate | intros [v [Hv _]]; discriminate Hv].
Qed.

(** The environment check passes exactly when every variable the
    provider requires is set to a value holding a character that is
    not white space: an unset variable, an empty one and one of blanks
    alone all count as missing. Every provider requires a variable, so
    an empty environment is refused for each. *)
Theorem environment_accepted (env : jsstring -> option jsstring)
    (provider : SupportedProvider) :
  (validateEnvironmentVariables env provider = Ok tt
   <-> forall envVar, In envVar (ENV_REQUIREMENTS provider) ->
         exists v, env envVar = Some v /\ exists c, In c v /\ is_ws c = false)
  /\ validateEnvironmentVariables (fun _ => None) provider <> Ok tt.
Proof.
  split.
  - unfold validateEnvironmentVariables. cbv zeta.
    destruct (filter (envVarMissing env) (ENV_REQUIREMENTS provider)) eqn:E.
    + cbn [length Nat.ltb Nat.leb]. split; [|reflexivity]. intros _ envVar Hin.
      apply envVarMissing_false.
      exact (proj1 (@filter_nil_iff jsstring (envVarMissing env)
                      (ENV_REQUIREMENTS provider)) E envVar Hin).
    + cbn [length Nat.ltb Nat.leb]. split; [discriminate|]. intros H.
      assert (E' : filter (envVarMissing env) (ENV_REQUIREMENTS provider) = []).
      { apply filter_nil_iff. intros x Hx. apply envVarMissing_false.
        apply H. exact Hx. }
      rewrite E' in E. discriminate E.
  - destruct provider; intros H; vm_compute in H; discriminate H.
Qed.

Lemma newSet_In (files : list jsstring) :
  forall seen x, In x (newSet seen files) <-> In x files /\ ~ In x seen.
Proof.
  induction files as [|f rest IH]; intros seen x; cbn [newSet In].
  - tauto.
  - destruct (existsb (jseq f) seen) eqn:E.
    + rewrite IH. apply existsb_exists in E. destruct E as [y [Hy Hfy]].
      apply jseq_eq in Hfy. subst y. split.
      * intros [H1 H2]. tauto.
      * intros [[<- | H1] H2]; [contradiction | tauto].
    + cbn [In]. rewrite IH. cbn [In].
      assert (Hf : ~ In f seen).
      { intros Hin. assert (existsb (jseq f) seen = true); [|congruence].
        apply existsb_exists. exists f. split; [exact Hin | apply jseq_refl]. }
      split.
      * intros [<- | [H1 H2]]; [tauto|]. tauto.
      * intros [[<- | H1] H2]; [left; reflexivity|].
        destruct (list_eq_dec N.eq_dec f x) as [-> | Hne]; [left; reflexivity|].
        right. split; [exact H1|]. intros [Heq | Hin]; [congruence | tauto].
Qed.

Lemma newSet_NoDup (files : list jsstring) :
  forall seen, NoDup (newSet seen files).
Proof.
  induction files as [|f rest IH]; intros seen; cbn [newSet]; [constructor|].
  destruct (existsb (jseq f) seen); [apply IH|].
  constructor; [|apply IH].
  intros Hin. apply newSet_In in Hin. destruct Hin as [_ Hn].
  apply Hn. left. reflexivity.
Qed.

(** The files [processFilePatterns] returns: each once; exactly the
    selected files (all files when no include pattern is given) that
    neither of the two fixed patterns nor any ignore pattern excludes;
    and an ignore pattern without a star excludes the file of that
    name at any depth, whatever the glob matcher says. *)
Theorem file_patterns_filtered (globSync : jsstring -> list jsstring)
    (relative : jsstring -> jsstring) (minimatch : jsstring -> jsstring -> bool)
    (includePatterns ignorePatterns : list jsstring) :
  let result :=
    processFilePatterns globSync relative minimatch includePatterns ignorePatterns in
  NoDup result
  /\ (forall file,
        In file result
        <-> In file (selected_files globSync relative includePatterns)
            /\ forall ignorePattern,
                 In ignorePattern
                    (lit "**/node_modules/**" :: lit "**/.git/**" :: ignorePatterns) ->
                 ignoredBy minimatch file ignorePattern = false)
  /\ (forall ignorePattern dir,
        In ignorePattern ignorePatterns ->
        includes (lit "*") (normalizePattern ignorePattern) = false ->
        ~ In ignorePattern result
        /\ ~ In (normalizePattern ignorePattern) result
        /\ ~ In (dir ++ lit "/" ++ normalizePattern ignorePattern) result).
Proof.
  cbv zeta.
  assert (Hmem : forall file,
             In file (processFilePatterns globSync relative minimatch
                        includePatterns ignorePatterns)
             <-> In file (selected_files globSync relative includePatterns)
                 /\ forall ignorePattern,
                      In ignorePattern
                         (lit "**/node_modules/**" :: lit "**/.git/**" :: ignorePatterns) ->
                      ignoredBy minimatch file ignorePattern = false).
  { intros file. unfold processFilePatterns. cbv zeta.
    rewrite newSet_In, filter_In, negb_true_iff.
    assert (Hsel : (if 0 <? length includePatterns then includePatterns
                    else [lit "**/*"])
                   = match includePatterns with
                     | [] => [lit "**/*"] | _ => includePatterns end).
    { destruct includePatterns; reflexivity. }
    rewrite Hsel. fold (selected_files globSync relative includePatterns).
    split.
    - intros [[Hin Hex] _]. split; [exact Hin|].
      intros ip Hip. destruct (ignoredBy minimatch file ip) eqn:E; [|reflexivity].
      assert (existsb (ignoredBy minimatch file)
                ([lit "**/node_modules/**"; lit "**/.git/**"] ++ ignorePatterns) = true);
        [|congruence].
      apply existsb_exists. exists ip. split; [exact Hip | exact E].
    - intros [Hin Hall]. split; [|intros []]. split; [exact Hin|].
      destruct (existsb (ignoredBy minimatch file)
                  ([lit "**/node_modules/**"; lit "**/.git/**"] ++ ignorePatterns)) eqn:E;
        [|reflexivity].
      apply existsb_exists in E. destruct E as [ip [Hip E]].
      rewrite (Hall ip Hip) in E. discriminate E. }
  split; [apply newSet_NoDup|]. split; [exact Hmem|].
  intros ip dir Hip Hstar.
  assert (Hex : forall file, ignoredBy minimatch file ip = true -> 
                  ~ In file (processFilePatterns globSync relative minimatch
                               includePatterns ignorePatterns)).
  { intros file E Hin. apply Hmem in Hin. destruct Hin as [_ Hall].
    rewrite (Hall ip) in E; [discriminate E|]. right. right. exact Hip. }
  split; [|split]; apply Hex; unfold ignoredBy; cbv zeta; rewrite Hstar;
    cbn [negb].
  - rewrite (jseq_refl ip), !orb_true_r. reflexivity.
  - rewrite (jseq_refl (normalizePattern ip)). reflexivity.
  - assert (He : endsWith (lit "/" ++ normalizePattern ip)
                   (dir ++ lit "/" ++ normalizePattern ip) = true).
    { unfold endsWith. apply startsWith_spec. exists (rev dir).
      rewrite rev_app_distr. reflexivity. }
    rewrite He, !orb_true_r. reflexivity.
Qed.
